(** * pics.py: the bake engine and its two batch drivers

    A shallow embedding of [src/pics.py].  Python strings are Rocq strings
    (sequences of bytes, the UTF-8 encoding of the Python text), paths are the
    pair of a directory and a final component that [pathlib] exposes as
    [parent] and [name], the file system is a finite map from paths to nodes,
    and every function that touches the disk is a computation in a monad that
    threads the file system and may raise a Python exception.  Printing of
    progress lines is left out. *)

From Stdlib Require Import ZArith Ascii.
From stdpp Require Import gmap strings list sorting.

Local Open Scope Z_scope.

(** ** Python strings *)

Module Str.

Definition len (s : string) : Z := Z.of_nat (String.length s).

(** [str.lower] on the ASCII range; bytes outside [A-Z] are unchanged. *)
Definition lower_ascii (c : ascii) : ascii :=
  let n := nat_of_ascii c in
  if ((65 <=? n) && (n <=? 90))%nat then ascii_of_nat (n + 32) else c.

Fixpoint lower (s : string) : string :=
  match s with
  | EmptyString => EmptyString
  | String c s' => String (lower_ascii c) (lower s')
  end.

(** [c in s] for a single character. *)
Fixpoint has_char (c : ascii) (s : string) : bool :=
  match s with
  | EmptyString => false
  | String a s' => Ascii.eqb a c || has_char c s'
  end.

(** [s.startswith(p)]. *)
Fixpoint starts_with (p s : string) : bool :=
  match p, s with
  | EmptyString, _ => true
  | String _ _, EmptyString => false
  | String a p', String b s' => Ascii.eqb a b && starts_with p' s'
  end.

(** [sub in s]: the substring test. *)
Fixpoint contains (sub s : string) : bool :=
  starts_with sub s ||
  match s with
  | EmptyString => false
  | String _ s' => contains sub s'
  end.

(** [s.rfind(c)] for a single character: the highest index, or [-1]. *)
Fixpoint rfind (c : ascii) (s : string) : Z :=
  match s with
  | EmptyString => -1
  | String a s' =>
      let i := rfind c s' in
      if 0 <=? i then i + 1 else if Ascii.eqb a c then 0 else -1
  end.

(** The slices [s[:n]] and [s[n:]] for [0 <= n]. *)
Fixpoint take (n : nat) (s : string) : string :=
  match n, s with
  | O, _ => EmptyString
  | S _, EmptyString => EmptyString
  | S n', String a s' => String a (take n' s')
  end.

Fixpoint drop (n : nat) (s : string) : string :=
  match n, s with
  | O, _ => s
  | S _, EmptyString => EmptyString
  | S n', String _ s' => drop n' s'
  end.

(** [str.strip()] without argument removes leading and trailing white
    space, the characters for which [str.isspace()] holds: U+0009-000D,
    U+001C-0020, U+0085, U+00A0, U+1680, U+2000-200A, U+2028, U+2029,
    U+202F, U+205F and U+3000.  In UTF-8 the first ten are one byte, U+0085
    and U+00A0 are [C2 85] and [C2 A0], and the others are three bytes:
    [E1 9A 80], [E2 80 80] to [E2 80 8A], [E2 80 A8], [E2 80 A9],
    [E2 80 AF], [E2 81 9F] and [E3 80 80]. *)
Definition is_space (c : ascii) : bool :=
  let n := nat_of_ascii c in
  (((9 <=? n) && (n <=? 13)) || ((28 <=? n) && (n <=? 32)))%nat.

Definition is_space2 (a b : ascii) : bool :=
  let a := nat_of_ascii a in
  let b := nat_of_ascii b in
  ((a =? 194) && ((b =? 133) || (b =? 160)))%nat.

Definition is_space3 (a b c : ascii) : bool :=
  let a := nat_of_ascii a in
  let b := nat_of_ascii b in
  let c := nat_of_ascii c in
  (((a =? 225) && (b =? 154) && (c =? 128)) ||
   ((a =? 226) && (b =? 128) &&
    (((128 <=? c) && (c <=? 138)) || (c =? 168) || (c =? 169) || (c =? 175))) ||
   ((a =? 226) && (b =? 129) && (c =? 159)) ||
   ((a =? 227) && (b =? 128) && (c =? 128)))%nat.

(** A string that is the encoding of one white space character. *)
Definition is_white (s : string) : bool :=
  match s with
  | String a EmptyString => is_space a
  | String a (String b EmptyString) => is_space2 a b
  | String a (String b (String c EmptyString)) => is_space3 a b c
  | _ => false
  end.

Fixpoint lstrip (s : string) : string :=
  match s with
  | EmptyString => EmptyString
  | String a s1 =>
      if is_space a then lstrip s1
      else
        match s1 with
        | EmptyString => s
        | String b s2 =>
            if is_space2 a b then lstrip s2
            else
              match s2 with
              | EmptyString => s
              | String c s3 => if is_space3 a b c then lstrip s3 else s
              end
        end
  end.

(** From the right: what is kept of the tail, with the byte before it, is
    dropped when it is one white space character. *)
Fixpoint rstrip (s : string) : string :=
  match s with
  | EmptyString => EmptyString
  | String a s' =>
      let r := String a (rstrip s') in
      if is_white r then EmptyString else r
  end.

Definition strip (s : string) : string := rstrip (lstrip s).

End Str.

(** ** Paths, after [pathlib.PurePath] *)

Record Path := mkPath { parent : list string; name : string }.

Global Instance Path_eq_dec : EqDecision Path.
Proof. solve_decision. Defined.

Global Instance Path_countable : Countable Path.
Proof.
  refine (inj_countable' (λ p, (parent p, name p)) (λ q, mkPath q.1 q.2) _).
  by intros [].
Defined.

(** [PurePath.suffix] and [PurePath.stem]: with [i = name.rfind('.')], the
    name splits at [i] when [0 < i < len(name) - 1], and has no suffix
    otherwise. *)
Definition has_suffix (n : string) : bool :=
  let i := Str.rfind "." n in (0 <? i) && (i <? Str.len n - 1).

Definition suffix_of (n : string) : string :=
  if has_suffix n then Str.drop (Z.to_nat (Str.rfind "." n)) n else "".

Definition stem_of (n : string) : string :=
  if has_suffix n then Str.take (Z.to_nat (Str.rfind "." n)) n else n.

Definition suffix (p : Path) : string := suffix_of (name p).
Definition stem (p : Path) : string := stem_of (name p).

(** The components of a path, and [folder / child]. *)
Definition parts (p : Path) : list string :=
  parent p ++ (if String.eqb (name p) "" then [] else [name p]).

Definition join (d : Path) (child : string) : Path := mkPath (parts d) child.

(** [str(p)]; the leading separator of an absolute path is not kept. *)
Definition path_str (p : Path) : string := String.concat "/" (parts p).

(** Python exceptions that the program can meet. [SystemExit] is the only one
    that is not an [Exception]. *)
Inductive exn : Type :=
  | ValueError (msg : string)
  | FileNotFoundError (msg : string)
  | FileExistsError
  | IsADirectoryError
  | NotADirectoryError
  | SameFileError
  | CodecError
  | RuntimeError (msg : string)
  | SystemExit (msg : string).

Definition is_Exception (e : exn) : bool :=
  match e with SystemExit _ => false | _ => true end.

(** [PurePath.with_name]: refuses a path without a name and a new name that
    is empty, is [.] or holds a separator. *)
Definition with_name (p : Path) (n : string) : exn + Path :=
  if String.eqb (name p) "" then inl (ValueError "has an empty name")
  else if String.eqb n "" || Str.has_char "/" n || String.eqb n "."
       then inl (ValueError "Invalid name")
       else inr (mkPath (parent p) n).

(** ** Helpers of pics.py *)

Definition IMG_EXTS : list string := [".jpg"; ".jpeg"; ".png"; ".webp"].

Definition in_IMG_EXTS (e : string) : bool := bool_decide (e ∈ IMG_EXTS).

Definition is_marked_d (path : Path) : bool := Str.contains "[D]" (stem path).

Definition mark_name (path : Path) (new_ext : string) : exn + Path :=
  with_name path (stem path +:+ "[D]" +:+ new_ext).

Definition safe_tmp_name (final_path : Path) : exn + Path :=
  with_name final_path (stem final_path +:+ ".tmp" +:+ suffix final_path).


(** ** The file system and the computation monad *)

(** A node is a regular file with its bytes or a directory. *)
Inductive node : Type :=
  | File (data : list Byte.byte)
  | Dir.

(** The disk: the nodes that exist, by path. *)
Abbreviation World := (gmap Path node).

Inductive res (A : Type) : Type :=
  | Ret (a : A)
  | Raise (e : exn).
Arguments Ret {A} a.
Arguments Raise {A} e.

(** State passing with exceptions: a raised exception keeps the state that
    was reached, as nothing on disk is rolled back. *)
Definition M (A : Type) : Type := World → res A * World.

Definition ret {A} (a : A) : M A := λ w, (Ret a, w).
Definition raise {A} (e : exn) : M A := λ w, (Raise e, w).
Definition bind {A B} (m : M A) (k : A → M B) : M B :=
  λ w, match m w with
       | (Ret a, w') => k a w'
       | (Raise e, w') => (Raise e, w')
       end.

Notation "x <- m ;; k" := (bind m (λ x, k))
  (at level 100, m at next level, right associativity).
Notation "m >> k" := (bind m (λ _, k))
  (at level 100, right associativity).

(** [try: m except E: h] for the exceptions selected by [handles]. *)
Definition try_except {A} (m : M A) (handles : exn → bool) (h : exn → M A) : M A :=
  λ w, match m w with
       | (Raise e, w') => if handles e then h e w' else (Raise e, w')
       | r => r
       end.

(** A computation that raises nothing but an [Exception], which is what
    [except Exception] catches. *)
Definition safe {A} (m : M A) : Prop :=
  ∀ w e w', m w = (Raise e, w') → is_Exception e = true.

Definition of_sum {A} (r : exn + A) : M A :=
  match r with inl e => raise e | inr a => ret a end.

(** [for x in l: s = body x s]. *)
Fixpoint for_each {A S} (l : list A) (body : A → S → M S) (s : S) : M S :=
  match l with
  | [] => ret s
  | x :: l' => s' <- body x s ;; for_each l' body s'
  end.

Fixpoint filterM {A} (f : A → M bool) (l : list A) : M (list A) :=
  match l with
  | [] => ret []
  | x :: l' => b <- f x ;; r <- filterM f l' ;; ret (if b then x :: r else r)
  end.

Definition get_nodes : M World := λ w, (Ret w, w).
Definition put_nodes (m : World) : M unit := λ _, (Ret tt, m).

Definition file_at (m : World) (p : Path) : option (list Byte.byte) :=
  match m !! p with Some (File d) => Some d | _ => None end.

Definition size_of (d : list Byte.byte) : Z := Z.of_nat (length d).

(** The size of the file at a path, 0 where there is none, and the sum over
    a list of paths. *)
Definition size_at (m : World) (p : Path) : Z := from_option size_of 0 (file_at m p).
Definition sum_sizes (m : World) (l : list Path) : Z :=
  foldr (λ p acc, size_at m p + acc) 0 l.

(** A computation that changes the content of no file outside [S], whatever
    its result. *)
Definition touches_only {A} (S : Path → Prop) (m : M A) : Prop :=
  ∀ w r w', m w = (r, w') → ∀ p, ¬ S p → file_at w' p = file_at w p.

(** *** pathlib and shutil on the model *)

Definition path_exists (p : Path) : M bool :=
  m <- get_nodes ;;
  ret (match m !! p with Some _ => true | None => false end).

Definition is_file (p : Path) : M bool :=
  m <- get_nodes ;;
  ret (match m !! p with Some (File _) => true | _ => false end).

Definition is_dir (p : Path) : M bool :=
  m <- get_nodes ;;
  ret (match m !! p with Some Dir => true | _ => false end).

(** [p.stat().st_size]. The size of a directory is not modelled: the model
    raises where Python would raise at the next read of the path. *)
Definition stat_size (p : Path) : M Z :=
  m <- get_nodes ;;
  match m !! p with
  | Some (File d) => ret (size_of d)
  | Some Dir => raise IsADirectoryError
  | None => raise (FileNotFoundError (path_str p))
  end.

(** [p.unlink(missing_ok=...)]. *)
Definition unlink (p : Path) (missing_ok : bool) : M unit :=
  m <- get_nodes ;;
  match m !! p with
  | Some (File _) => put_nodes (delete p m)
  | Some Dir => raise IsADirectoryError
  | None => if missing_ok then ret tt else raise (FileNotFoundError (path_str p))
  end.

(** [p.rename(q)] with POSIX semantics: an existing file at [q] is replaced,
    a directory at [q] is an error. Only files are renamed by the program. *)
Definition rename (p q : Path) : M unit :=
  m <- get_nodes ;;
  match m !! p with
  | None => raise (FileNotFoundError (path_str p))
  | Some n =>
      match m !! q with
      | Some Dir => raise IsADirectoryError
      | _ => put_nodes (<[q := n]> (delete p m))
      end
  end.

(** The directories from the root down to the path with components [l]. *)
Fixpoint chain (pre l : list string) : list Path :=
  match l with
  | [] => []
  | x :: l' => mkPath pre x :: chain (pre ++ [x]) l'
  end.

(** [d.mkdir(parents=True, exist_ok=True)]. *)
Definition mkdir_p (d : Path) : M unit :=
  for_each (chain [] (parts d))
    (λ q _, m <- get_nodes ;;
            match m !! q with
            | None => put_nodes (<[q := Dir]> m)
            | Some Dir => ret tt
            | Some (File _) => raise FileExistsError
            end) tt.

(** [shutil.copy2(src, dst)]: into [dst] when it is a directory, refusing to
    copy a file onto itself. *)
Definition copy2 (src dst : Path) : M unit :=
  m <- get_nodes ;;
  let dst := match m !! dst with Some Dir => join dst (name src) | _ => dst end in
  if bool_decide (src = dst) then raise SameFileError
  else
    match m !! src with
    | None => raise (FileNotFoundError (path_str src))
    | Some Dir => raise IsADirectoryError
    | Some (File d) =>
        match m !! dst with
        | Some Dir => raise IsADirectoryError
        | _ => put_nodes (<[dst := File d]> m)
        end
    end.

(** Whether [p] lies below [folder], at any depth or directly. *)
Definition is_under (folder p : Path) : bool :=
  bool_decide (parts folder `prefix_of` parent p).
Definition is_child (folder p : Path) : bool :=
  bool_decide (parts folder = parent p).

(** [folder.rglob("*")]: the entries below the folder, in the order the map
    enumerates them; nothing when the folder is missing or is a file. *)
Definition rglob (folder : Path) : M (list Path) :=
  m <- get_nodes ;;
  ret (filter (λ p, is_under folder p = true) (map_to_list m).*1).

(** [folder.iterdir()]: the entries directly in the folder; a missing folder
    and a file in its place are errors. *)
Definition iterdir (folder : Path) : M (list Path) :=
  m <- get_nodes ;;
  match m !! folder with
  | Some Dir => ret (filter (λ p, is_child folder p = true) (map_to_list m).*1)
  | Some (File _) => raise NotADirectoryError
  | None => raise (FileNotFoundError (path_str folder))
  end.

(** The order of paths in one directory: by name, byte-wise. *)
Definition path_le (p q : Path) : Prop := String.le (name p) (name q).
Global Instance path_le_dec : RelDecision path_le.
Proof. intros p q. unfold path_le. apply _. Defined.

Definition sorted (l : list Path) : list Path := merge_sort path_le l.

(** ** The image codec (Pillow), as the program sees it *)

(** A value of the [save_kwargs] dictionary. *)
Inductive kwarg : Type :=
  | KInt (z : Z)
  | KBool (b : bool).

(** What [im.save] left at the path it was given, on return and on error. *)
Inductive save_result : Type :=
  | SaveReturned (out : option (list Byte.byte))
  | SaveRaised (left : option (list Byte.byte)).

(** The batch summary: the numbers that the drivers format into their
    report. *)
Record Summary := mkSummary {
  total_images : Z;
  baked_wins : Z;
  kept_original : Z;
  error_count : Z;
  size_before : Z;
  size_after : Z
}.

(** ** A small codec and disks to run the program on *)

Module Demo.

(** An image is its bytes; a file that starts with [xff] does not decode.
    The encoder shrinks data that starts with [x00] by ten bytes, grows data
    that starts with [x01] by fifty, fails on data that starts with [x03]
    after writing one byte, and copies anything else. *)
Definition Image : Type := list Byte.byte.
Definition mode (im : Image) : string := "RGB".
Definition decode (d : list Byte.byte) : option Image :=
  match d with
  | [] => None
  | Byte.xff :: _ => None
  | _ => Some d
  end.
Definition rgb (im : Image) : option Image := Some im.
Definition encode (im : Image) (path : Path) (kw : list (string * kwarg)) : save_result :=
  match im with
  | Byte.x00 :: _ => SaveReturned (Some (drop 10 im))
  | Byte.x01 :: _ => SaveReturned (Some (im ++ replicate 50 Byte.x00))
  | Byte.x03 :: _ => SaveRaised (Some [Byte.x03])
  | _ => SaveReturned (Some im)
  end.
Definition fmt (n : Z) : string := "?".

(** A string given by its bytes. *)
Definition utf8 (l : list Z) : string :=
  foldr (λ n s, String (ascii_of_nat (Z.to_nat n)) s) "" l.

Definition home : Path := mkPath ["data"; "data"; "com.termux"; "files"] "home".
Definition shared : Path := join (join home "storage") "shared".
Definition dcim : Path := join shared "DCIM".
Definition pic (n : string) : Path := join dcim n.

(** Three pictures of 100, 200 and 50 bytes that re-encode to 90, 250 and 50. *)
Definition three : World :=
  <[pic "a.jpg" := File (replicate 100 Byte.x00)]>
    (<[pic "b.jpg" := File (replicate 200 Byte.x01)]>
       (<[pic "c.jpg" := File (replicate 50 Byte.x02)]>
          (<[dcim := Dir]> ∅))).

(** A picture baked earlier beside a fresh one. *)
Definition rerun : World :=
  <[pic "a[D].jpg" := File (replicate 90 Byte.x00)]>
    (<[pic "b.jpg" := File (replicate 50 Byte.x02)]>
       (<[dcim := Dir]> ∅)).

(** A picture that does not decode, with a temp file left by an interrupted
    run, and a picture on which the encoder fails half way. *)
Definition broken : World :=
  <[pic "d.png" := File [Byte.xff; Byte.xff]]>
    (<[pic "d[D].tmp.png" := File [Byte.x00]]>
       (<[pic "e.png" := File [Byte.x03; Byte.x03; Byte.x03]]>
          (<[dcim := Dir]> ∅))).

End Demo.

(** A folder with a sub-folder: a picture and a text file at the top, a
    picture with an upper-case extension one level down. *)
Module Tree.

Definition sub (n : string) : Path := join (join Demo.dcim "trip") n.

Definition disk : World :=
  <[Demo.pic "a.jpg" := File (replicate 100 Byte.x00)]>
    (<[Demo.pic "notes.txt" := File (replicate 7 Byte.x02)]>
       (<[sub "shot.PNG" := File (replicate 40 Byte.x00)]>
          (<[join Demo.dcim "trip" := Dir]>
             (<[Demo.dcim := Dir]> ∅)))).

End Tree.

Section Pics.

(** Pillow is a collaborator: its images, decoder and encoders are
    arbitrary, and so is the formatting of byte counts through floats. *)
Variable Image : Type.
Variable im_mode : Image → string.
Variable pil_open : list Byte.byte → option Image.
Variable pil_flatten_black : Image → option Image.
Variable pil_convert_rgb : Image → option Image.
Variable pil_save : Image → Path → list (string * kwarg) → save_result.
Variable fmt_bytes : Z → string.
(** [Path.home()]. *)
Variable home : Path.

(** [Image.open(src)]. *)
Definition image_open (src : Path) : M Image :=
  m <- get_nodes ;;
  match m !! src with
  | None => raise (FileNotFoundError (path_str src))
  | Some Dir => raise IsADirectoryError
  | Some (File d) =>
      match pil_open d with
      | Some im => ret im
      | None => raise CodecError
      end
  end.

(** [im.save(path, **kwargs)]. *)
Definition image_save (im : Image) (path : Path) (kw : list (string * kwarg)) : M unit :=
  m <- get_nodes ;;
  match pil_save im path kw with
  | SaveReturned (Some d) => put_nodes (<[path := File d]> m)
  | SaveReturned None => ret tt
  | SaveRaised (Some d) => put_nodes (<[path := File d]> m) >> raise CodecError
  | SaveRaised None => raise CodecError
  end.

Definition of_codec {A} (o : option A) : M A :=
  match o with Some a => ret a | None => raise CodecError end.

Definition save_image_to_tmp (im : Image) (tmp_path : Path) (quality : Z) : M unit :=
  let ext := Str.lower (suffix tmp_path) in
  r <- (if String.eqb ext ".jpg" || String.eqb ext ".jpeg" then
          im' <- (if String.eqb (im_mode im) "RGBA" || String.eqb (im_mode im) "LA"
                  then of_codec (pil_flatten_black im)
                  else of_codec (pil_convert_rgb im)) ;;
          ret (im', [("quality", KInt quality); ("optimize", KBool true);
                     ("progressive", KBool true)])
        else if String.eqb ext ".webp" then
          ret (im, [("quality", KInt quality); ("method", KInt 6)])
        else if String.eqb ext ".png" then
          ret (im, [("optimize", KBool true)])
        else ret (im, [])) ;;
  (* ensure no stale tmp *)
  e <- path_exists tmp_path ;;
  (if e then unlink tmp_path false else ret tt) >>
  image_save r.1 tmp_path r.2.

Definition outcome : Type := bool * string * Z * Z.

Definition skip_message (src : Path) : string :=
  "⏭️ skip already marked " +:+ name src.
Definition won_message (src final : Path) (src_size tmp_size : Z) : string :=
  "✅ " +:+ name src +:+ " -> " +:+ name final +:+ " | " +:+
  fmt_bytes src_size +:+ " -> " +:+ fmt_bytes tmp_size.
Definition kept_message (src : Path) : string :=
  "↩️ kept original " +:+ name src +:+ " (no win)".

(** The target extension (lines 106-111 of [bake_one]). *)
Definition target_ext (src : Path) (output_fmt : string) : string :=
  let src_ext := Str.lower (suffix src) in
  if String.eqb output_fmt "keep" then src_ext else "." +:+ output_fmt.

(** The wins rule (line 134 of [bake_one]). *)
Definition wins (output_fmt : string) (tmp_size src_size : Z) : bool :=
  if String.eqb output_fmt "keep" then tmp_size <? src_size else true.

(** [bake_one] up to the wins rule (lines 106-129): the paths, the backup,
    the encode into the temp file and the two sizes. *)
Definition bake_encode (src : Path) (output_fmt : string) (quality : Z)
    (backup_dir : option Path) : M (Path * Path * Z * Z) :=
  final <- of_sum (mark_name src (target_ext src output_fmt)) ;;
  tmp <- of_sum (safe_tmp_name final) ;;
  (* optional backup of original *)
  match backup_dir with
  | Some d => mkdir_p d >> copy2 src (join d (name src))
  | None => ret tt
  end >>
  src_size <- stat_size src ;;
  (im <- image_open src ;; save_image_to_tmp im tmp quality) >>
  e <- path_exists tmp ;;
  if negb e then raise (RuntimeError "Temp output was not created (save failed).")
  else
    tmp_size <- stat_size tmp ;;
    ret (final, tmp, src_size, tmp_size).

(** [bake_one] from the wins rule on (lines 131-148). *)
Definition bake_settle (src final tmp : Path) (output_fmt : string)
    (delete_original_on_win : bool) (src_size tmp_size : Z) : M outcome :=
  let won := wins output_fmt tmp_size src_size in
  if won then
    (e <- path_exists final ;; if e then unlink final false else ret tt) >>
    rename tmp final >>
    (if delete_original_on_win then unlink src true else ret tt) >>
    ret (true, won_message src final src_size tmp_size, src_size, tmp_size)
  else
    (* not a win: discard tmp *)
    unlink tmp true >>
    ret (false, kept_message src, src_size, src_size).

Definition bake_one (src : Path) (output_fmt : string) (quality : Z)
    (delete_original_on_win : bool) (backup_dir : option Path)
    (skip_if_marked : bool) : M outcome :=
  if skip_if_marked && is_marked_d src then
    ret (false, skip_message src, 0, 0)
  else
    r <- bake_encode src output_fmt quality backup_dir ;;
    let '(final, tmp, src_size, tmp_size) := r in
    bake_settle src final tmp output_fmt delete_original_on_win src_size tmp_size.

(** ** Scanning and the two batch drivers *)

Definition folder_size_bytes (folder : Path) : M Z :=
  ps <- rglob folder ;;
  for_each ps
    (λ p total,
       f <- is_file p ;;
       if f then
         try_except (sz <- stat_size p ;; ret (total + sz))
           (λ e, match e with FileNotFoundError _ => true | _ => false end)
           (λ _, ret total)
       else ret total) 0.

(** The test [p.is_file() and p.suffix.lower() in IMG_EXTS]. *)
Definition is_image_file (p : Path) : M bool :=
  f <- is_file p ;; ret (f && in_IMG_EXTS (Str.lower (suffix p))).

Definition iter_images_flat (folder : Path) : M (list Path) :=
  ps <- iterdir folder ;; filterM is_image_file (sorted ps).

Definition iter_images_recursive (folder : Path) : M (list Path) :=
  ps <- rglob folder ;; filterM is_image_file ps.

(** The counters [baked], [kept] and [errors]. *)
Definition tallies : Type := Z * Z * Z.

Definition run_folder_mode (input_dir : Path) (output_fmt : string) (quality : Z)
    (delete_original_on_win : bool) (backup_dir : option Path)
    (skip_if_marked recursive : bool) : M Summary :=
  d <- is_dir input_dir ;;
  if negb d then raise (FileNotFoundError ("Input folder not found: " +:+ path_str input_dir))
  else
    before <- folder_size_bytes input_dir ;;
    files <- (if recursive then iter_images_recursive input_dir
              else iter_images_flat input_dir) ;;
    let total := Z.of_nat (length files) in
    t <- for_each files
           (λ src (t : tallies),
              let '(baked, kept, errors) := t in
              try_except
                (o <- bake_one src output_fmt quality delete_original_on_win
                        backup_dir skip_if_marked ;;
                 let '(won, _, _, _) := o in
                 ret (if won then (baked + 1, kept, errors)
                      else (baked, kept + 1, errors)))
                is_Exception
                (λ _, ret (baked, kept, errors + 1)))
           (0, 0, 0) ;;
    after <- folder_size_bytes input_dir ;;
    let '(baked, kept, errors) := t in
    ret (mkSummary total baked kept errors before after).

Definition default_all_roots : M (list Path) :=
  let shared := join (join home "storage") "shared" in
  let candidates :=
    [ join shared "DCIM"; join shared "Pictures"; join shared "Download";
      join (join shared "WhatsApp") "Media"; join shared "Telegram" ] in
  filterM path_exists candidates.

Definition required : string := "I UNDERSTAND THIS DELETES ORIGINALS".

Definition refusing_message : string :=
  String "010" "REFUSING: --delete-originals requires --confirm " +:+
  String "034" required +:+ String "034" (String "010" "").

(** [sum(folder_size_bytes(r) for r in roots)]. *)
Definition total_size (roots : list Path) : M Z :=
  for_each roots (λ r acc, s <- folder_size_bytes r ;; ret (acc + s)) 0.

(** The candidate list of [run_all_mode] (lines 249-256). *)
Definition all_mode_files (roots : list Path) (skip_if_marked : bool) : M (list Path) :=
  all_files <- for_each roots
                 (λ r acc, l <- iter_images_recursive r ;; ret (acc ++ l)) [] ;;
  (* filter *)
  let files := filter (λ p, in_IMG_EXTS (Str.lower (suffix p)) = true) all_files in
  let files := if skip_if_marked
               then filter (λ p, is_marked_d p = false) files else files in
  ret files.

Definition run_all_mode (output_fmt : string) (quality : Z)
    (delete_original_on_win : bool) (backup_dir : option Path)
    (skip_if_marked : bool) (confirm : string) : M Summary :=
  (* hard safety lock *)
  if delete_original_on_win && negb (String.eqb (Str.strip confirm) required) then
    raise (SystemExit refusing_message)
  else
    roots <- default_all_roots ;;
    if bool_decide (roots = []) then
      raise (SystemExit "No default image roots found. (Need Termux storage access?)")
    else
      total_before <- total_size roots ;;
      files <- all_mode_files roots skip_if_marked ;;
      let total := Z.of_nat (length files) in
      t <- for_each files
             (λ src (t : tallies),
                let '(baked, kept, errors) := t in
                try_except
                  (o <- bake_one src output_fmt quality delete_original_on_win
                          backup_dir skip_if_marked ;;
                   let '(won, _, _, _) := o in
                   ret (if won then (baked + 1, kept, errors)
                        else (baked, kept + 1, errors)))
                  is_Exception
                  (λ _, ret (baked, kept, errors + 1)))
             (0, 0, 0) ;;
      total_after <- total_size roots ;;
      let '(baked, kept, errors) := t in
      ret (mkSummary total baked kept errors total_before total_after).

(** The exit status of the process when a driver's result reaches the top
    level of [main]: an exception, [SystemExit] with a message included,
    ends the interpreter with status 1. *)
Definition exit_status {A} (r : res A) : Z :=
  match r with Ret _ => 0 | Raise _ => 1 end.

(** ** Facts about strings *)

Lemma app_cons c a b : String c a +:+ b = String c (a +:+ b).
Proof. reflexivity. Qed.
Lemma app_nil_l b : "" +:+ b = b.
Proof. reflexivity. Qed.
Lemma app_nil_r a : a +:+ "" = a.
Proof. induction a as [|c a IH]; [done|]. by rewrite app_cons, IH. Qed.
Lemma app_assoc a b c : (a +:+ b) +:+ c = a +:+ (b +:+ c).
Proof. induction a as [|x a IH]; [done|]. by rewrite !app_cons, IH. Qed.
Lemma len_app a b : Str.len (a +:+ b) = Str.len a + Str.len b.
Proof.
  unfold Str.len. induction a as [|x a IH]; [rewrite app_nil_l; simpl; lia|].
  rewrite app_cons. simpl. lia.
Qed.
Lemma len_nonneg a : 0 ≤ Str.len a.
Proof. unfold Str.len. lia. Qed.
Lemma len_cons c a : Str.len (String c a) = 1 + Str.len a.
Proof. unfold Str.len. simpl String.length. lia. Qed.
Lemma has_char_app c a b : Str.has_char c (a +:+ b) = Str.has_char c a || Str.has_char c b.
Proof.
  induction a as [|x a IH]; [done|].
  rewrite app_cons. simpl. rewrite IH. by rewrite orb_assoc.
Qed.
(** [strip] removes white space characters of one, two and three bytes
    alike, at either end and however many. *)
Lemma is_space2_inv a b :
  Str.is_space2 a b = true → Str.is_space a = false ∧ Str.is_space b = false.
Proof.
  unfold Str.is_space2, Str.is_space.
  rewrite andb_true_iff, orb_true_iff, !Nat.eqb_eq. intros [-> [-> | ->]]; done.
Qed.

Lemma is_space3_inv a b c :
  Str.is_space3 a b c = true →
  Str.is_space a = false ∧ Str.is_space2 a b = false ∧
  Str.is_space c = false ∧ Str.is_space2 b c = false.
Proof.
  unfold Str.is_space3, Str.is_space2, Str.is_space.
  rewrite !orb_true_iff, !andb_true_iff, !orb_true_iff, !andb_true_iff,
    !Nat.eqb_eq, !Nat.leb_le.
  intros H. split_and!; apply not_true_iff_false;
    rewrite ?orb_true_iff, ?andb_true_iff, ?orb_true_iff, ?Nat.eqb_eq, ?Nat.leb_le;
    lia.
Qed.

Lemma lstrip_white ws s :
  Str.is_white ws = true → Str.lstrip (ws +:+ s) = Str.lstrip s.
Proof.
  destruct ws as [|a [|b [|c [|]]]]; try done; simpl Str.is_white; intros H;
    rewrite !app_cons, app_nil_l; simpl.
  - by rewrite H.
  - destruct (is_space2_inv _ _ H) as [-> _]. by rewrite H.
  - destruct (is_space3_inv _ _ _ H) as (-> & -> & _). by rewrite H.
Qed.

Lemma rstrip_white s ws :
  Str.is_white ws = true → Str.rstrip (s +:+ ws) = Str.rstrip s.
Proof.
  intros H. induction s as [|x s IH].
  - rewrite app_nil_l. destruct ws as [|a [|b [|c [|]]]]; try done;
      simpl in H; simpl.
    + by rewrite H.
    + destruct (is_space2_inv _ _ H) as [_ ->]. by rewrite H.
    + destruct (is_space3_inv _ _ _ H) as (_ & _ & -> & ->). by rewrite H.
  - rewrite app_cons. simpl. by rewrite IH.
Qed.

Lemma lstrip_whites (l : list string) s :
  Forall (λ ws, Str.is_white ws = true) l →
  Str.lstrip (foldr String.app "" l +:+ s) = Str.lstrip s.
Proof.
  induction 1 as [|ws l Hws _ IH]; [done|]. simpl.
  by rewrite app_assoc, lstrip_white, IH.
Qed.

Lemma rstrip_whites (r : list string) s :
  Forall (λ ws, Str.is_white ws = true) r →
  Str.rstrip (s +:+ foldr String.app "" r) = Str.rstrip s.
Proof.
  intros Hr. revert s. induction Hr as [|ws r Hws _ IH]; intros s; simpl.
  - by rewrite app_nil_r.
  - by rewrite <- app_assoc, IH, rstrip_white.
Qed.

Lemma take_drop n s : Str.take n s +:+ Str.drop n s = s.
Proof.
  revert s. induction n as [|n IH]; intros [|c s]; simpl; try done.
  by rewrite app_cons, IH.
Qed.
Lemma rfind_bounds c s : -1 ≤ Str.rfind c s < Str.len s.
Proof.
  induction s as [|a s IH]; [unfold Str.len; simpl; lia|].
  rewrite len_cons. simpl. destruct (0 <=? Str.rfind c s) eqn:E.
  - lia.
  - destruct (Ascii.eqb a c); pose proof (len_nonneg s); lia.
Qed.
Lemma rfind_none c s : Str.rfind c s = -1 ↔ Str.has_char c s = false.
Proof.
  induction s as [|a s IH]; [done|]. simpl.
  pose proof (rfind_bounds c s).
  destruct (0 <=? Str.rfind c s) eqn:E.
  - apply Z.leb_le in E. split; [lia|]. intros [_ H1]%orb_false_iff. apply IH in H1. lia.
  - apply Z.leb_gt in E. assert (Str.rfind c s = -1) as H1 by lia.
    apply IH in H1. rewrite H1. destruct (Ascii.eqb a c); simpl; split; (done || lia).
Qed.
Lemma rfind_app_r c a b :
  0 ≤ Str.rfind c b → Str.rfind c (a +:+ b) = Str.len a + Str.rfind c b.
Proof.
  intros Hb. induction a as [|x a IH]; [unfold Str.len; simpl; rewrite app_nil_l; lia|].
  rewrite app_cons, len_cons. simpl. rewrite IH.
  pose proof (len_nonneg a).
  destruct (0 <=? _) eqn:E; [lia|]. apply Z.leb_gt in E. lia.
Qed.
Lemma rfind_drop c s :
  0 ≤ Str.rfind c s →
  ∃ r, Str.drop (Z.to_nat (Str.rfind c s)) s = String c r ∧ Str.has_char c r = false.
Proof.
  induction s as [|a s IH]; [simpl; lia|]. simpl.
  pose proof (rfind_bounds c s).
  destruct (0 <=? Str.rfind c s) eqn:E.
  - apply Z.leb_le in E. intros _. destruct (IH E) as (r & Hr & Hn).
    exists r. split; [|done].
    replace (Z.to_nat (Str.rfind c s + 1)) with (S (Z.to_nat (Str.rfind c s))) by lia.
    done.
  - apply Z.leb_gt in E. destruct (Ascii.eqb a c) eqn:Ea; [|lia].
    intros _. apply Ascii.eqb_eq in Ea as ->. exists s. split; [done|].
    apply rfind_none. lia.
Qed.

Lemma length_take n s : (n ≤ String.length s)%nat → String.length (Str.take n s) = n.
Proof.
  revert s. induction n as [|n IH]; intros [|c s]; simpl; intros; try lia.
  rewrite IH; lia.
Qed.
Lemma take_app_add a j x :
  Str.take (String.length a + j) (a +:+ x) = a +:+ Str.take j x.
Proof. induction a as [|c a IH]; [done|]. rewrite !app_cons. simpl. by rewrite IH. Qed.
Lemma take_app_length a x : Str.take (String.length a) (a +:+ x) = a.
Proof.
  replace (String.length a) with (String.length a + 0)%nat by lia.
  rewrite take_app_add. simpl. apply app_nil_r.
Qed.
Lemma drop_app_length a x : Str.drop (String.length a) (a +:+ x) = x.
Proof. induction a as [|c a IH]; [by destruct x|]. by rewrite app_cons. Qed.
Lemma to_nat_len a : Z.to_nat (Str.len a) = String.length a.
Proof. unfold Str.len. lia. Qed.
Lemma len_zero a : Str.len a = 0 → a = "".
Proof. destruct a as [|c a]; [done|]. rewrite len_cons. pose proof (len_nonneg a). lia. Qed.

(** *** pathlib: stem and suffix *)
Lemma stem_suffix n : stem_of n +:+ suffix_of n = n.
Proof.
  unfold stem_of, suffix_of. destruct (has_suffix n).
  - apply take_drop.
  - apply app_nil_r.
Qed.

Lemma suffix_shape n :
  suffix_of n = "" ∨
  ∃ r, suffix_of n = String "." r ∧ r ≠ "" ∧ Str.has_char "." r = false.
Proof.
  unfold suffix_of. destruct (has_suffix n) eqn:E; [right|by left].
  unfold has_suffix in E. apply andb_true_iff in E as [E1%Z.ltb_lt E2%Z.ltb_lt].
  destruct (rfind_drop "." n) as (r & Hr & Hn); [lia|].
  exists r. split_and!; [done| |done].
  intros ->. pose proof (take_drop (Z.to_nat (Str.rfind "." n)) n) as Htd.
  rewrite Hr in Htd. apply (f_equal Str.len) in Htd.
  rewrite len_app, len_cons in Htd. unfold Str.len in Htd at 1.
  rewrite length_take in Htd; [unfold Str.len in *; simpl in *; lia|].
  unfold Str.len in *. lia.
Qed.

Lemma rfind_dot_ext r : Str.has_char "." r = false → Str.rfind "." (String "." r) = 0.
Proof. intros H%rfind_none. simpl. rewrite H. done. Qed.

Lemma split_app_ext a r :
  a ≠ "" → r ≠ "" → Str.has_char "." r = false →
  stem_of (a +:+ String "." r) = a ∧ suffix_of (a +:+ String "." r) = String "." r.
Proof.
  intros Ha Hr Hn.
  assert (Str.rfind "." (a +:+ String "." r) = Str.len a) as Hi.
  { rewrite rfind_app_r; rewrite rfind_dot_ext by done; lia. }
  assert (has_suffix (a +:+ String "." r) = true) as Hs.
  { unfold has_suffix. rewrite Hi, len_app, len_cons.
    pose proof (len_nonneg a). pose proof (len_nonneg r).
    assert (Str.len a ≠ 0) by (intros ?%len_zero; done).
    assert (Str.len r ≠ 0) by (intros ?%len_zero; done).
    apply andb_true_iff. split; [apply Z.ltb_lt|apply Z.ltb_lt]; lia. }
  unfold stem_of, suffix_of. rewrite Hs, Hi, to_nat_len.
  by rewrite take_app_length, drop_app_length.
Qed.

Lemma stem_prefix a b : ∃ c, stem_of (a +:+ String "." b) = a +:+ c.
Proof.
  unfold stem_of. destruct (has_suffix _); [|by eexists].
  assert (0 ≤ Str.rfind "." (String "." b)) as Hj.
  { simpl. destruct (0 <=? Str.rfind "." b) eqn:E; [apply Z.leb_le in E|]; lia. }
  rewrite rfind_app_r by done.
  replace (Z.to_nat (Str.len a + Str.rfind "." (String "." b)))
    with (String.length a + Z.to_nat (Str.rfind "." (String "." b)))%nat
    by (unfold Str.len; lia).
  rewrite take_app_add. by eexists.
Qed.

(** *** Lower case *)
Lemma lower_ascii_dot a : Ascii.eqb (Str.lower_ascii a) "." = Ascii.eqb a ".".
Proof. by destruct a as [[][][][][][][][]]. Qed.
Lemma lower_ascii_bracket a : Ascii.eqb (Str.lower_ascii a) "[" = Ascii.eqb a "[".
Proof. by destruct a as [[][][][][][][][]]. Qed.
Lemma has_char_lower c s :
  (∀ a, Ascii.eqb (Str.lower_ascii a) c = Ascii.eqb a c) →
  Str.has_char c (Str.lower s) = Str.has_char c s.
Proof. intros Hc. induction s as [|a s IH]; [done|]. simpl. by rewrite Hc, IH. Qed.
Lemma len_lower s : Str.len (Str.lower s) = Str.len s.
Proof. induction s as [|a s IH]; [done|]. simpl. rewrite !len_cons. lia. Qed.
Lemma lower_ext r : Str.lower (String "." r) = String "." (Str.lower r).
Proof. done. Qed.
Lemma lower_nonempty r : r ≠ "" → Str.lower r ≠ "".
Proof. by destruct r. Qed.

(** *** The substring test *)
Lemma starts_with_iff p s : Str.starts_with p s = true ↔ ∃ b, s = p +:+ b.
Proof.
  revert s. induction p as [|a p IH]; intros s.
  - split; [by exists s|done].
  - destruct s as [|c s]; simpl.
    + split; [done|]. by intros [b Hb].
    + rewrite andb_true_iff, IH, Ascii.eqb_eq. split.
      * intros [-> [b ->]]. by exists b.
      * intros [b Hb]. rewrite app_cons in Hb. injection Hb as -> ->. eauto.
Qed.
Lemma contains_iff sub s : Str.contains sub s = true ↔ ∃ a b, s = a +:+ sub +:+ b.
Proof.
  induction s as [|c s IH].
  - simpl. rewrite orb_false_r, starts_with_iff. split.
    + intros [b Hb]. by exists "", b.
    + intros ([|x a] & b & Hb); [by exists b|done].
  - simpl. rewrite orb_true_iff, starts_with_iff, IH. split.
    + intros [[b Hb]|(a & b & Hb)]; [by exists "", b|].
      exists (String c a), b. by rewrite app_cons, Hb.
    + intros ([|x a] & b & Hb); [left; by exists b|right].
      rewrite app_cons in Hb. injection Hb as -> ->. eauto.
Qed.
Lemma contains_no_first c sub s :
  Str.has_char c s = false → Str.contains (String c sub) s = false.
Proof.
  induction s as [|a s IH]; [done|]. simpl. intros [H1 H2]%orb_false_iff.
  rewrite IH by done. rewrite Ascii.eqb_sym, H1. done.
Qed.
Lemma contains_tag_app_ext s r :
  Str.has_char "[" r = false →
  Str.contains "[D]" (s +:+ String "." r) = Str.contains "[D]" s.
Proof.
  intros Hr. induction s as [|x s IH].
  - rewrite app_nil_l. by rewrite contains_no_first.
  - rewrite app_cons. simpl Str.contains at 1. rewrite IH.
    change (Str.contains "[D]" (String x s)) with
      (Str.starts_with "[D]" (String x s) || Str.contains "[D]" s).
    f_equal. simpl. f_equal.
    destruct s as [|y [|z s]]; done.
Qed.

(** ** Facts about the paths of one bake *)

Example mark_name_photo :
  mark_name (mkPath ["pics"] "photo.jpg") ".jpg" = inr (mkPath ["pics"] "photo[D].jpg").
Proof. reflexivity. Qed.

Example safe_tmp_name_photo :
  safe_tmp_name (mkPath ["pics"] "photo[D].jpg") = inr (mkPath ["pics"] "photo[D].tmp.jpg").
Proof. reflexivity. Qed.

Example suffix_upper : suffix (mkPath [] "photo.JPG") = ".JPG".
Proof. reflexivity. Qed.

Example suffix_hidden : suffix (mkPath [] ".bashrc") = "" ∧ suffix (mkPath [] "foo.") = "".
Proof. split; reflexivity. Qed.

Example is_marked_d_infix : is_marked_d (mkPath ["pics"] "a[D]b.jpg") = true.
Proof. reflexivity. Qed.

Lemma with_name_inr p n q :
  with_name p n = inr q →
  q = mkPath (parent p) n ∧ name p ≠ "" ∧ n ≠ "" ∧ Str.has_char "/" n = false.
Proof.
  unfold with_name. destruct (String.eqb_spec (name p) ""); [done|].
  destruct (String.eqb_spec n ""); [done|].
  destruct (Str.has_char "/" n); [done|].
  simpl. destruct (String.eqb n "."); [done|]. by intros [= <-].
Qed.

Lemma with_name_ok p n :
  name p ≠ "" → (3 ≤ Str.len n) → Str.has_char "/" n = false →
  with_name p n = inr (mkPath (parent p) n).
Proof.
  intros Hp Hn Hs. unfold with_name.
  destruct (String.eqb_spec (name p) ""); [done|].
  destruct (String.eqb_spec n "") as [->|]; [unfold Str.len in Hn; simpl in Hn; lia|].
  rewrite Hs. simpl.
  destruct (String.eqb_spec n ".") as [->|]; [unfold Str.len in Hn; simpl in Hn; lia|done].
Qed.

Lemma mark_name_inr src e final :
  mark_name src e = inr final →
  final = mkPath (parent src) (stem src +:+ "[D]" +:+ e).
Proof. intros H. by apply with_name_inr in H as [-> _]. Qed.

Lemma safe_tmp_name_inr final tmp :
  safe_tmp_name final = inr tmp →
  tmp = mkPath (parent final) (stem final +:+ ".tmp" +:+ suffix final).
Proof. intros H. by apply with_name_inr in H as [-> _]. Qed.

Lemma final_name_neq_src src e : stem src +:+ "[D]" +:+ e ≠ name src.
Proof.
  unfold stem. rewrite <- (stem_suffix (name src)) at 2.
  intros H%(inj (String.app _)).
  destruct (suffix_shape (name src)) as [E|(r & E & _)]; rewrite E in H; done.
Qed.

Lemma tmp_name_neq_final n : stem_of n +:+ ".tmp" +:+ suffix_of n ≠ n.
Proof.
  intros H%(f_equal Str.len). rewrite <- (stem_suffix n) in H at 3.
  rewrite !len_app in H. unfold Str.len in H at 2. simpl in H. lia.
Qed.

Lemma tmp_name_neq_src src output_fmt :
  let F := stem src +:+ "[D]" +:+ target_ext src output_fmt in
  stem_of F +:+ ".tmp" +:+ suffix_of F ≠ name src.
Proof.
  intros F. unfold target_ext in F. destruct (String.eqb output_fmt "keep").
  - intros H%(f_equal Str.len).
    assert (Str.len (stem_of F +:+ ".tmp" +:+ suffix_of F) = Str.len F + 4) as HF.
    { rewrite <- (stem_suffix F) at 3. rewrite !len_app.
      unfold Str.len at 2. simpl. lia. }
    rewrite HF in H. subst F. rewrite !len_app, len_lower in H.
    assert (Str.len (name src) = Str.len (stem src) + Str.len (suffix src)) as Hn.
    { unfold stem, suffix. by rewrite <- len_app, stem_suffix. }
    rewrite Hn in H. unfold Str.len in H at 2. simpl in H. lia.
  - assert (F = (stem src +:+ "[D]") +:+ String "." output_fmt) as ->
      by (subst F; by rewrite app_assoc).
    destruct (stem_prefix (stem src +:+ "[D]") output_fmt) as [c ->].
    rewrite !app_assoc. unfold stem. rewrite <- (stem_suffix (name src)) at 3.
    intros H%(inj (String.app _)).
    destruct (suffix_shape (name src)) as [E|(r & E & _)]; rewrite E in H; done.
Qed.

(** The three paths of one bake are pairwise distinct and share the
    directory. *)
Lemma bake_paths src output_fmt final tmp :
  mark_name src (target_ext src output_fmt) = inr final →
  safe_tmp_name final = inr tmp →
  parent final = parent src ∧ parent tmp = parent src ∧
  name final ≠ name src ∧ name tmp ≠ name src ∧ name tmp ≠ name final.
Proof.
  intros ->%mark_name_inr ->%safe_tmp_name_inr. simpl.
  split_and!; try done.
  - apply final_name_neq_src.
  - apply tmp_name_neq_src.
  - apply tmp_name_neq_final.
Qed.

(** ** Running computations *)

Ltac run_monad :=
  cbv beta iota zeta delta
    [bind ret raise get_nodes put_nodes of_sum path_exists is_file is_dir
     stat_size unlink rename try_except].

Lemma bind_inv {A B} (m : M A) (k : A → M B) w b w2 :
  bind m k w = (Ret b, w2) → ∃ a w1, m w = (Ret a, w1) ∧ k a w1 = (Ret b, w2).
Proof. unfold bind. destruct (m w) as [[a|e] w1]; [eauto|done]. Qed.

Lemma bind_run {A B} (m : M A) (k : A → M B) w a w1 :
  m w = (Ret a, w1) → bind m k w = k a w1.
Proof. unfold bind. by intros ->. Qed.

Lemma bind_run_raise {A B} (m : M A) (k : A → M B) w e w1 :
  m w = (Raise e, w1) → bind m k w = (Raise e, w1).
Proof. unfold bind. by intros ->. Qed.

Lemma run_eq {A} (r : res A * World) a w : r.1 = a → r.2 = w → r = (a, w).
Proof. destruct r. simpl. by intros -> ->. Qed.

Lemma of_sum_inv {A} (r : exn + A) w a w1 :
  of_sum r w = (Ret a, w1) → r = inr a ∧ w1 = w.
Proof. destruct r; unfold of_sum, ret, raise; naive_solver. Qed.

Lemma stat_size_inv p w z w1 :
  stat_size p w = (Ret z, w1) → w1 = w ∧ ∃ d, w !! p = Some (File d) ∧ z = size_of d.
Proof.
  unfold stat_size, bind, get_nodes, ret, raise.
  destruct (w !! p) as [[d|]|]; naive_solver.
Qed.

Lemma path_exists_inv p w b w1 :
  path_exists p w = (Ret b, w1) → w1 = w ∧ (b = true ↔ is_Some (w !! p)).
Proof.
  unfold path_exists, bind, get_nodes, ret. intros [= <- <-]. split; [done|].
  destruct (w !! p); split; (done || by intros []).
Qed.

Lemma file_at_insert_dir w q p :
  w !! q = None → file_at (<[q := Dir]> w) p = file_at w p.
Proof.
  intros Hq. unfold file_at. destruct (decide (q = p)) as [->|Hne].
  - by rewrite lookup_insert_eq, Hq.
  - by rewrite lookup_insert_ne.
Qed.

(** Creating directories neither adds nor changes a file. *)
Lemma mkdir_p_frame d w w1 :
  mkdir_p d w = (Ret tt, w1) → ∀ p, file_at w1 p = file_at w p.
Proof.
  unfold mkdir_p. generalize (chain [] (parts d)). intros l. revert w.
  induction l as [|q l IH]; intros w; simpl.
  - unfold ret. by intros [= <-].
  - intros ([] & w' & Hq & Hl)%bind_inv p. rewrite (IH _ Hl).
    unfold bind, get_nodes, put_nodes, ret, raise in Hq.
    destruct (w !! q) as [[?|]|] eqn:E; simplify_eq; [done|].
    by apply file_at_insert_dir.
Qed.

Lemma copy2_inv src dst w w1 :
  copy2 src dst w = (Ret tt, w1) →
  ∃ dst' d, dst' ≠ src ∧ (name dst' = name dst ∨ name dst' = name src) ∧
            w !! src = Some (File d) ∧ w !! dst' ≠ Some Dir ∧
            w1 = <[dst' := File d]> w.
Proof.
  unfold copy2, bind, get_nodes, put_nodes, ret, raise.
  set (dst' := match w !! dst with Some Dir => join dst (name src) | _ => dst end).
  assert (name dst' = name dst ∨ name dst' = name src) as Hn.
  { subst dst'. destruct (w !! dst) as [[?|]|]; auto. }
  case_bool_decide as Hsd; [done|].
  destruct (w !! src) as [[d|]|] eqn:Es; try done.
  destruct (w !! dst') as [[?|]|] eqn:Ed; try done; intros [= <-];
    exists dst', d; split_and!; try done; congruence.
Qed.

(** The optional backup leaves every file as it was, the copy apart, and
    the copy bears the name of the original in another place. *)
Lemma backup_frame src backup_dir w w1 :
  match backup_dir with
  | Some d => mkdir_p d >> copy2 src (join d (name src))
  | None => ret tt
  end w = (Ret tt, w1) →
  (backup_dir = None → w1 = w) ∧
  ∀ p, name p ≠ name src ∨ p = src → file_at w1 p = file_at w p.
Proof.
  destruct backup_dir as [d|].
  - intros ([] & w' & Hm & Hc)%bind_inv. split; [done|]. intros p Hp.
    rewrite <- (mkdir_p_frame _ _ _ Hm p).
    apply copy2_inv in Hc as (dst' & c & Hne & Hn & Hs & _ & ->).
    unfold file_at. rewrite lookup_insert_ne; [done|].
    intros <-. simpl in Hn. destruct Hp as [Hp| ->]; [|done]. by destruct Hn.
  - unfold ret. by intros [= <-].
Qed.

Lemma image_open_inv src w im w1 :
  image_open src w = (Ret im, w1) → w1 = w.
Proof.
  unfold image_open, bind, get_nodes, ret, raise.
  destruct (w !! src) as [[d|]|]; [|done..].
  destruct (pil_open d); naive_solver.
Qed.

Lemma unlink_inv p ok w w1 :
  unlink p ok w = (Ret tt, w1) → w1 = delete p w.
Proof.
  unfold unlink, bind, get_nodes, put_nodes, ret, raise.
  destruct (w !! p) as [[d|]|] eqn:E; [naive_solver|done|].
  destruct ok; [|done]. intros [= <-]. symmetry. by apply delete_id.
Qed.

Lemma image_save_inv im path kw w w1 :
  image_save im path kw w = (Ret tt, w1) → ∀ p, p ≠ path → w1 !! p = w !! p.
Proof.
  unfold image_save, bind, get_nodes, put_nodes, ret, raise.
  destruct (pil_save im path kw) as [[d|]|[d|]]; intros [= <-] p Hp; [|done].
  by rewrite lookup_insert_ne.
Qed.

(** The encode step writes the temp path and nothing else. *)
Lemma save_image_to_tmp_inv im tmp quality w w1 :
  save_image_to_tmp im tmp quality w = (Ret tt, w1) →
  ∀ p, p ≠ tmp → w1 !! p = w !! p.
Proof.
  unfold save_image_to_tmp.
  intros (r & wa & Hr & (e & wb & He & ([] & wc & Hu & Hs)%bind_inv)%bind_inv)%bind_inv p Hp.
  apply path_exists_inv in He as [-> _].
  rewrite (image_save_inv _ _ _ _ _ Hs p Hp).
  assert (wa = w) as ->.
  { revert Hr. unfold bind, of_codec, ret, raise.
    repeat case_match; naive_solver. }
  destruct e.
  - apply unlink_inv in Hu as ->. by rewrite lookup_delete_ne.
  - unfold ret in Hu. by simplify_eq.
Qed.

Lemma unlink_run p w :
  w !! p ≠ Some Dir → unlink p true w = (Ret tt, delete p w).
Proof.
  intros Hp. run_monad. destruct (w !! p) as [[d|]|] eqn:E; [done|done|].
  by rewrite delete_id.
Qed.

Lemma exists_unlink_run p w :
  w !! p ≠ Some Dir →
  (e <- path_exists p ;; if e then unlink p false else ret tt) w = (Ret tt, delete p w).
Proof.
  intros Hp. run_monad.
  destruct (w !! p) as [[d|]|] eqn:E; simpl; rewrite ?E; [done|done|].
  by rewrite delete_id.
Qed.

Lemma rename_run p q w n :
  w !! p = Some n → w !! q ≠ Some Dir →
  rename p q w = (Ret tt, <[q := n]> (delete p w)).
Proof.
  intros Hp Hq. run_monad. rewrite Hp.
  by destruct (w !! q) as [[d|]|] eqn:E.
Qed.

(** ** The encode stage of [bake_one] *)

(** When the encode stage returns, the source is the file it measured and is
    still in place, the temp file is on disk with the measured size, and no
    other file changed but the backup copy. *)
Lemma bake_encode_spec src output_fmt quality backup_dir w final tmp s t w1 :
  bake_encode src output_fmt quality backup_dir w = (Ret (final, tmp, s, t), w1) →
  mark_name src (target_ext src output_fmt) = inr final ∧
  safe_tmp_name final = inr tmp ∧
  ∃ d dt,
    file_at w src = Some d ∧ s = size_of d ∧
    w1 !! src = Some (File d) ∧
    w1 !! tmp = Some (File dt) ∧ t = size_of dt ∧
    (backup_dir = None → ∀ p, p ≠ tmp → w1 !! p = w !! p) ∧
    (∀ p, p ≠ tmp → name p ≠ name src ∨ p = src → file_at w1 p = file_at w p).
Proof.
  unfold bake_encode.
  intros (final' & wa & [Hf ->]%of_sum_inv & H)%bind_inv.
  apply bind_inv in H as (tmp' & wa & [Ht ->]%of_sum_inv & H).
  apply bind_inv in H as ([] & wb & Hb & H).
  apply bind_inv in H as (s' & wc & [-> (d & Hd & ->)]%stat_size_inv & H).
  apply bind_inv in H as ([] & wd & (im & wo & ->%image_open_inv & Hs)%bind_inv & H).
  apply bind_inv in H as (e & we & [-> He]%path_exists_inv & H).
  destruct e; simpl in H; [|done].
  apply bind_inv in H as (t' & wf & [-> (dt & Hdt & ->)]%stat_size_inv & H).
  unfold ret in H. simplify_eq.
  destruct (bake_paths _ _ _ _ Hf Ht) as (_ & _ & _ & Hts & _).
  assert (src ≠ tmp) as Hne by (intros ->; done).
  pose proof (save_image_to_tmp_inv _ _ _ _ _ Hs) as Hfr.
  apply backup_frame in Hb as [Hb1 Hb2].
  split_and!; [done..|]. exists d, dt.
  assert (file_at wb src = Some d) as Hsrc by (unfold file_at; by rewrite Hd).
  split_and!; try done.
  - rewrite <- Hsrc. symmetry. apply Hb2. by right.
  - by rewrite Hfr.
  - intros -> p Hp. rewrite Hfr by done. by rewrite Hb1.
  - intros p Hp Hn. rewrite <- Hb2 by done. unfold file_at. by rewrite Hfr.
Qed.

(** A source that does not decode: the bake raises and the disk is as it
    was, whatever lay at the temp path included. *)
Lemma bake_one_decode_error src output_fmt quality del skip w d :
  skip && is_marked_d src = false →
  w !! src = Some (File d) → pil_open d = None →
  ∃ e, bake_one src output_fmt quality del None skip w = (Raise e, w).
Proof.
  intros Hskip Hsrc Hopen. unfold bake_one. rewrite Hskip. unfold bake_encode.
  destruct (mark_name src (target_ext src output_fmt)) as [e|final];
    [exists e; reflexivity|].
  unfold image_open. run_monad.
  destruct (safe_tmp_name final) as [e|tmp]; [exists e; reflexivity|].
  exists CodecError. rewrite Hsrc. cbv beta iota. rewrite Hsrc. cbv beta iota.
  by rewrite Hopen.
Qed.

(** ** The settle stage of [bake_one] *)

Lemma wins_keep t s : wins "keep" t s = true ↔ t < s.
Proof. unfold wins. simpl. apply Z.ltb_lt. Qed.

Lemma wins_convert output_fmt t s : output_fmt ≠ "keep" → wins output_fmt t s = true.
Proof. unfold wins. by intros ->%String.eqb_neq. Qed.

Lemma bake_one_run src output_fmt quality del backup_dir skip w final tmp s t w1 :
  skip && is_marked_d src = false →
  bake_encode src output_fmt quality backup_dir w = (Ret (final, tmp, s, t), w1) →
  bake_one src output_fmt quality del backup_dir skip w =
  bake_settle src final tmp output_fmt del s t w1.
Proof. intros Hs He. unfold bake_one. rewrite Hs. by rewrite (bind_run _ _ _ _ _ He). Qed.

(** A win in any state of the disk where the temp file exists and neither
    the final path nor the original is a directory. *)
Lemma bake_settle_win src final tmp output_fmt del s t w1 dt :
  wins output_fmt t s = true →
  w1 !! tmp = Some (File dt) → w1 !! final ≠ Some Dir → w1 !! src ≠ Some Dir →
  final ≠ tmp → src ≠ final → src ≠ tmp →
  bake_settle src final tmp output_fmt del s t w1 =
  (Ret (true, won_message src final s t, s, t),
   (if del then delete src else id) (<[final := File dt]> (delete tmp (delete final w1)))).
Proof.
  intros Hw Ht Hf Hs Hft Hsf Hst. unfold bake_settle. rewrite Hw.
  erewrite bind_run by (by apply exists_unlink_run).
  erewrite bind_run
    by (apply rename_run; [by rewrite lookup_delete_ne|by rewrite lookup_delete_eq]).
  destruct del; [|done].
  erewrite bind_run; [done|].
  apply unlink_run. by rewrite lookup_insert_ne, !lookup_delete_ne.
Qed.

Lemma bake_settle_keep src final tmp output_fmt del s t w1 dt :
  wins output_fmt t s = false →
  w1 !! tmp = Some (File dt) →
  bake_settle src final tmp output_fmt del s t w1 =
  (Ret (false, kept_message src, s, s), delete tmp w1).
Proof.
  intros Hw Ht. unfold bake_settle. rewrite Hw.
  run_monad. by rewrite Ht.
Qed.

(** ** The outcomes of one bake *)

(** C1. Every bake that is not skipped and whose encode stage returned (the
    codec succeeded and the temp file exists, with [s] the size of the source
    and [t] the size of the temp file) returns an outcome whose first
    component is the wins rule: in keep mode it is true exactly when
    [t < s], so a tie or a regression does not win, and for any other
    format it is true whatever the sizes.  The final path must not be a
    directory, which no file operation of the commit could replace. *)
Theorem bake_one_win_decision src output_fmt quality del backup_dir skip
    w final tmp s t w1 :
  skip && is_marked_d src = false →
  bake_encode src output_fmt quality backup_dir w = (Ret (final, tmp, s, t), w1) →
  w1 !! final ≠ Some Dir →
  ∃ d dt msg a b w2,
    file_at w src = Some d ∧ s = size_of d ∧
    file_at w1 tmp = Some dt ∧ t = size_of dt ∧
    bake_one src output_fmt quality del backup_dir skip w
      = (Ret (wins output_fmt t s, msg, a, b), w2) ∧
    (output_fmt = "keep" → (wins output_fmt t s = true ↔ t < s)) ∧
    (output_fmt ≠ "keep" → wins output_fmt t s = true).
Proof.
  intros Hskip Henc Hfin.
  rewrite (bake_one_run _ _ _ del _ _ _ _ _ _ _ _ Hskip Henc).
  destruct (bake_encode_spec _ _ _ _ _ _ _ _ _ _ Henc)
    as (Hf & Ht & d & dt & Hd & -> & Hs1 & Ht1 & -> & _ & _).
  destruct (bake_paths _ _ _ _ Hf Ht) as (_ & _ & Hfs & Hts & Htf).
  exists d, dt.
  assert (file_at w1 tmp = Some dt) as Hfa by (unfold file_at; by rewrite Ht1).
  destruct (wins output_fmt (size_of dt) (size_of d)) eqn:Hw.
  - eexists _, _, _, _. split_and!; try done.
    + rewrite (bake_settle_win _ _ _ _ _ _ _ _ dt);
        first [done | by rewrite Hs1 | by intros ->].
    + intros ->. by rewrite <- wins_keep, Hw.
  - eexists _, _, _, _. split_and!; try done.
    + exact (bake_settle_keep _ _ _ _ _ _ _ _ dt Hw Ht1).
    + intros ->. by rewrite <- wins_keep, Hw.
    + intros H. by rewrite wins_convert in Hw.
Qed.

(** C3. For every winning bake (the encode stage returned and the wins rule
    holds, the final path not being a directory): the outcome is
    [(True, message, s, t)] with [s] the size of the source and [t] the size
    of the temp file; afterwards the final path holds the bytes of the temp
    file, whatever file was there before, the temp path is gone, the
    original is gone exactly when [delete_original_on_win] is set, and every
    other path is as it was.  Had the original vanished before the commit,
    the same commit would still return the win. *)
Theorem bake_one_won src output_fmt quality del backup_dir skip
    w final tmp s t w1 :
  skip && is_marked_d src = false →
  bake_encode src output_fmt quality backup_dir w = (Ret (final, tmp, s, t), w1) →
  wins output_fmt t s = true →
  w1 !! final ≠ Some Dir →
  ∃ d dt w2,
    file_at w src = Some d ∧ s = size_of d ∧
    w1 !! tmp = Some (File dt) ∧ t = size_of dt ∧
    bake_one src output_fmt quality del backup_dir skip w
      = (Ret (true, won_message src final s t, s, t), w2) ∧
    w2 !! final = Some (File dt) ∧
    w2 !! tmp = None ∧
    (w2 !! src = None ↔ del = true) ∧
    (∀ p, p ≠ final → p ≠ tmp → p ≠ src → w2 !! p = w1 !! p) ∧
    (∃ w2', bake_settle src final tmp output_fmt del s t (delete src w1)
              = (Ret (true, won_message src final s t, s, t), w2') ∧
            w2' !! final = Some (File dt) ∧ w2' !! tmp = None ∧ w2' !! src = None).
Proof.
  intros Hskip Henc Hw Hfin.
  rewrite (bake_one_run _ _ _ del _ _ _ _ _ _ _ _ Hskip Henc).
  destruct (bake_encode_spec _ _ _ _ _ _ _ _ _ _ Henc)
    as (Hf & Ht & d & dt & Hd & -> & Hs1 & Ht1 & -> & _ & _).
  destruct (bake_paths _ _ _ _ Hf Ht) as (_ & _ & Hfs & Hts & Htf).
  assert (final ≠ tmp) as Hft by (by intros ->).
  assert (src ≠ final) as Hsf by (by intros ->).
  assert (src ≠ tmp) as Hst by (by intros ->).
  exists d, dt,
    ((if del then delete src else id) (<[final := File dt]> (delete tmp (delete final w1)))).
  split_and!; try done.
  - apply bake_settle_win; try done. by rewrite Hs1.
  - destruct del; simpl; [rewrite lookup_delete_ne by done|]; apply lookup_insert_eq.
  - destruct del; simpl; [rewrite lookup_delete_ne by done|];
      (rewrite lookup_insert_ne by done); apply lookup_delete_eq.
  - destruct del; simpl; [by rewrite lookup_delete_eq|].
    rewrite lookup_insert_ne, !lookup_delete_ne, Hs1 by done. done.
  - intros p Hp1 Hp2 Hp3.
    destruct del; simpl; [rewrite lookup_delete_ne by done|];
      by rewrite lookup_insert_ne, !lookup_delete_ne.
  - eexists. split_and!.
    + apply bake_settle_win; try done.
      * by rewrite lookup_delete_ne.
      * by rewrite lookup_delete_ne.
      * by rewrite lookup_delete_eq.
    + destruct del; simpl; [rewrite lookup_delete_ne by done|]; apply lookup_insert_eq.
    + destruct del; simpl; [rewrite lookup_delete_ne by done|];
        (rewrite lookup_insert_ne by done); apply lookup_delete_eq.
    + destruct del; simpl; [by rewrite lookup_delete_eq|].
      rewrite lookup_insert_ne, !lookup_delete_ne by done. apply lookup_delete_eq.
Qed.

(** C4. For every bake in keep mode whose temp file is not strictly smaller
    than the source: the outcome is [(False, message, s, s)] with [s] the
    size of the source, the temp file is gone, the original holds the bytes
    it held before, the final marked path holds what it held before (no
    marked file is created), and so does every other path that does not
    bear the name of the original (the optional backup copy bears it). *)
Theorem bake_one_kept_original src quality del backup_dir skip w final tmp s t w1 :
  skip && is_marked_d src = false →
  bake_encode src "keep" quality backup_dir w = (Ret (final, tmp, s, t), w1) →
  ¬ t < s →
  ∃ d w2,
    file_at w src = Some d ∧ s = size_of d ∧
    bake_one src "keep" quality del backup_dir skip w
      = (Ret (false, kept_message src, s, s), w2) ∧
    w2 !! tmp = None ∧
    file_at w2 src = Some d ∧
    file_at w2 final = file_at w final ∧
    (∀ p, p ≠ tmp → name p ≠ name src → file_at w2 p = file_at w p) ∧
    (backup_dir = None → ∀ p, p ≠ tmp → w2 !! p = w !! p).
Proof.
  intros Hskip Henc Hts.
  rewrite (bake_one_run _ _ _ del _ _ _ _ _ _ _ _ Hskip Henc).
  destruct (bake_encode_spec _ _ _ _ _ _ _ _ _ _ Henc)
    as (Hf & Ht & d & dt & Hd & -> & Hs1 & Ht1 & -> & Hb & Hfr).
  destruct (bake_paths _ _ _ _ Hf Ht) as (_ & _ & Hfs & Hns & Htf).
  assert (final ≠ tmp) as Hft by (by intros ->).
  assert (src ≠ tmp) as Hst by (by intros ->).
  assert (wins "keep" (size_of dt) (size_of d) = false) as Hw.
  { apply not_true_is_false. by rewrite wins_keep. }
  exists d, (delete tmp w1). split_and!; try done.
  - exact (bake_settle_keep _ _ _ _ _ _ _ _ dt Hw Ht1).
  - apply lookup_delete_eq.
  - unfold file_at. by rewrite lookup_delete_ne, Hs1.
  - rewrite <- (Hfr final) by auto. unfold file_at. by rewrite lookup_delete_ne.
  - intros p Hp Hn. rewrite <- (Hfr p) by auto. unfold file_at.
    by rewrite lookup_delete_ne.
  - intros Hbk p Hp. rewrite lookup_delete_ne by done. by apply Hb.
Qed.

(** ** Marked candidates *)

Lemma is_marked_d_iff p :
  is_marked_d p = true ↔ ∃ a b, stem p = a +:+ "[D]" +:+ b.
Proof. apply contains_iff. Qed.

Lemma image_ext_shape x :
  in_IMG_EXTS (Str.lower x) = true → Str.has_char "[" x = false ∧ x ≠ "".
Proof.
  intros H. apply bool_decide_eq_true in H. unfold IMG_EXTS in H.
  rewrite <- (has_char_lower "[" x) by apply lower_ascii_bracket.
  assert (Str.lower x ≠ "" → x ≠ "") as Hx by (intros Hl ->; by apply Hl).
  revert H Hx. generalize (Str.lower x). intros y Hy Hx.
  rewrite !elem_of_cons in Hy.
  destruct Hy as [Hy|[Hy|[Hy|[Hy|Hy]]]]; [subst y; split; [done|by apply Hx]..|].
  by apply elem_of_nil in Hy.
Qed.

(** For a candidate with an image extension the tag is in the name exactly
    when it is in the stem. *)
Lemma marked_by_name p :
  in_IMG_EXTS (Str.lower (suffix p)) = true →
  Str.contains "[D]" (name p) = is_marked_d p.
Proof.
  intros [Hb Hne]%image_ext_shape. unfold is_marked_d, stem, suffix in *.
  rewrite <- (stem_suffix (name p)) at 1.
  destruct (suffix_shape (name p)) as [E|(r & E & _)]; [done|].
  rewrite E in *. apply contains_tag_app_ext. exact Hb.
Qed.

Lemma bake_one_skip src output_fmt quality del backup_dir :
  is_marked_d src = true →
  bake_one src output_fmt quality del backup_dir true
  = ret (false, skip_message src, 0, 0).
Proof. intros H. unfold bake_one. by rewrite H. Qed.

(** C6. A candidate (a name with an image extension) whose base name carries
    the tag [[D]] is skipped when [skip_if_marked] is set: [bake_one] is the
    computation that returns [(False, message, 0, 0)] at once, without a
    single file operation, so the disk is as before; and that outcome
    differs from every won outcome, from every kept outcome and from every
    raised exception. *)
Theorem bake_one_skips_marked src output_fmt quality del backup_dir :
  in_IMG_EXTS (Str.lower (suffix src)) = true →
  Str.contains "[D]" (name src) = true →
  bake_one src output_fmt quality del backup_dir true
    = ret (false, skip_message src, 0, 0) ∧
  (∀ w, bake_one src output_fmt quality del backup_dir true w
        = (Ret (false, skip_message src, 0, 0), w)) ∧
  (∀ src' final s t,
     (false, skip_message src, 0, 0) ≠ (true, won_message src' final s t, s, t)) ∧
  (∀ src' s, (false, skip_message src, 0, 0) ≠ (false, kept_message src', s, s)) ∧
  (∀ w e w', bake_one src output_fmt quality del backup_dir true w ≠ (Raise e, w')).
Proof.
  intros Hext Hname. rewrite marked_by_name in Hname by done.
  rewrite (bake_one_skip _ _ _ _ _ Hname). split_and!; [done|done|done| |done].
  (* the two messages differ in their second byte *)
  intros src' s [=].
Qed.

(** ** Target extension, final path and temp path *)

Lemma app_ne s t : t ≠ "" → s +:+ t ≠ "".
Proof. destruct s; [by rewrite app_nil_l|done]. Qed.

Lemma has_char_stem c n : Str.has_char c n = false → Str.has_char c (stem_of n) = false.
Proof.
  intros H. rewrite <- (stem_suffix n), has_char_app in H.
  by apply orb_false_iff in H as [H _].
Qed.

(** The two derived paths for an extension [.r] without a further dot. *)
Lemma derived_paths p r :
  name p ≠ "" → Str.has_char "/" (name p) = false →
  r ≠ "" → Str.has_char "." r = false → Str.has_char "/" r = false →
  let e := String "." r in
  let final := mkPath (parent p) (stem p +:+ "[D]" +:+ e) in
  let tmp := mkPath (parent p) (stem p +:+ "[D]" +:+ ".tmp" +:+ e) in
  mark_name p e = inr final ∧ stem final = stem p +:+ "[D]" ∧ suffix final = e ∧
  safe_tmp_name final = inr tmp ∧ suffix tmp = e.
Proof.
  intros Hp Hps Hr Hrd Hrs e final tmp.
  assert (Str.has_char "/" (stem p) = false) as Hss by (by apply has_char_stem).
  assert (stem p +:+ "[D]" ≠ "") as Hne by (by apply app_ne).
  assert (name final = (stem p +:+ "[D]") +:+ e) as Hnf
    by (subst final; simpl; by rewrite app_assoc).
  destruct (split_app_ext (stem p +:+ "[D]") r Hne Hr Hrd) as [Hst Hsu].
  assert (stem final = stem p +:+ "[D]") as Hsf by (unfold stem; by rewrite Hnf).
  assert (suffix final = e) as Hxf by (unfold suffix; by rewrite Hnf).
  split_and!; try done.
  - unfold mark_name. apply with_name_ok; [done| |].
    + rewrite !len_app. unfold Str.len. simpl. lia.
    + rewrite !has_char_app, Hss. subst e. simpl. by rewrite Hrs.
  - unfold safe_tmp_name. rewrite Hsf, Hxf, app_assoc.
    apply with_name_ok; [by destruct (stem p)| |].
    + rewrite !len_app. unfold Str.len. simpl. lia.
    + rewrite !has_char_app, Hss. subst e. simpl. by rewrite Hrs.
  - unfold suffix. subst tmp. simpl.
    assert (stem p +:+ "[D]" +:+ ".tmp" +:+ e = (stem p +:+ "[D].tmp") +:+ e) as ->
      by (by rewrite !app_assoc).
    apply split_app_ext; try done. by apply app_ne.
Qed.

Lemma image_ext_split e :
  in_IMG_EXTS e = true →
  ∃ r, e = String "." r ∧ r ≠ "" ∧ Str.has_char "." r = false ∧ Str.has_char "/" r = false.
Proof.
  intros H. apply bool_decide_eq_true in H. unfold IMG_EXTS in H.
  rewrite !elem_of_cons in H.
  destruct H as [H|[H|[H|[H|H]]]]; [subst e; eexists; by split_and!..|].
  by apply elem_of_nil in H.
Qed.

(** C8. For every path with a name and every image extension [e]: the final
    marked path lies in the same directory, and its name is the stem of the
    candidate, then [[D]], then [e] (so its stem is the candidate's stem with
    [[D]] appended and its extension is [e]); the temp path lies in the same
    directory, and its name is the stem of the final path, then [.tmp], then
    the extension of the final path, so the temp path ends in the image
    extension [e]. *)
Theorem marked_and_temp_names p e :
  name p ≠ "" → Str.has_char "/" (name p) = false →
  in_IMG_EXTS e = true →
  ∃ final tmp,
    mark_name p e = inr final ∧
    parent final = parent p ∧
    name final = stem p +:+ "[D]" +:+ e ∧
    stem final = stem p +:+ "[D]" ∧ suffix final = e ∧
    safe_tmp_name final = inr tmp ∧
    parent tmp = parent p ∧
    name tmp = stem final +:+ ".tmp" +:+ suffix final ∧
    name tmp = stem p +:+ "[D]" +:+ ".tmp" +:+ e ∧
    suffix tmp = e ∧ in_IMG_EXTS (suffix tmp) = true.
Proof.
  intros Hp Hps He.
  destruct (image_ext_split e He) as (r & -> & Hr & Hrd & Hrs).
  destruct (derived_paths p r Hp Hps Hr Hrd Hrs) as (Hm & Hsf & Hxf & Ht & Hxt).
  eexists _, _. split_and!; try done.
  - simpl. by rewrite Hsf, Hxf, app_assoc.
  - by rewrite Hxt.
Qed.

(** C7, as amended. In keep mode the target extension is the candidate's
    extension in lower case, and so is the extension of the final marked
    path of a candidate with an extension; it is the candidate's own
    extension when that has no upper-case letter. For any other format the
    target extension is a dot followed by the requested format, which is the
    extension of the final path when the format is not empty and holds no
    dot. *)
Theorem target_ext_lowercased src output_fmt final :
  mark_name src (target_ext src output_fmt) = inr final →
  suffix src ≠ "" →
  (output_fmt = "keep" →
     target_ext src output_fmt = Str.lower (suffix src) ∧
     suffix final = Str.lower (suffix src) ∧
     (Str.lower (suffix src) = suffix src → suffix final = suffix src)) ∧
  (output_fmt ≠ "keep" →
     target_ext src output_fmt = "." +:+ output_fmt ∧
     (output_fmt ≠ "" → Str.has_char "." output_fmt = false →
      suffix final = "." +:+ output_fmt)).
Proof.
  intros ->%mark_name_inr Hx.
  assert (stem src +:+ "[D]" ≠ "") as Hne by (by apply app_ne).
  assert (∀ r, r ≠ "" → Str.has_char "." r = false →
            suffix_of (stem src +:+ "[D]" +:+ String "." r) = String "." r) as Hsplit.
  { intros r Hr Hd. rewrite <- app_assoc. by apply split_app_ext. }
  split.
  - intros ->. unfold target_ext, suffix in *. simpl.
    destruct (suffix_shape (name src)) as [E|(r & E & Hr & Hd)]; [done|].
    rewrite E, lower_ext.
    assert (suffix_of (stem src +:+ "[D]" +:+ String "." (Str.lower r))
            = String "." (Str.lower r)) as Hs.
    { apply Hsplit; [by apply lower_nonempty|].
      by rewrite has_char_lower by apply lower_ascii_dot. }
    split_and!; [done|done|]. intros Hl. by rewrite Hs.
  - intros Hk. unfold target_ext, suffix. simpl.
    apply String.eqb_neq in Hk. rewrite Hk. split; [done|].
    intros Hf Hd. by apply Hsplit.
Qed.

(** ** No stage of a bake raises [SystemExit] *)

Lemma safe_ret {A} (a : A) : safe (ret a).
Proof. by intros w e w' [=]. Qed.

Lemma safe_raise {A} e : is_Exception e = true → safe (@raise A e).
Proof. by intros He w e' w' [= <- _]. Qed.

Lemma safe_bind {A B} (m : M A) (k : A → M B) :
  safe m → (∀ a, safe (k a)) → safe (bind m k).
Proof.
  intros Hm Hk w e w'. unfold bind.
  destruct (m w) as [[a|e1] w1] eqn:E.
  - apply Hk.
  - intros [= <- <-]. by eapply Hm.
Qed.

Lemma safe_for_each {A S} (body : A → S → M S) l s :
  (∀ x s, safe (body x s)) → safe (for_each l body s).
Proof.
  intros Hb. revert s. induction l as [|x l IH]; intros s; simpl.
  - apply safe_ret.
  - apply safe_bind; [apply Hb|apply IH].
Qed.

Ltac safe_prim :=
  intros w e w'; run_monad; repeat case_match; intros; simplify_eq; done.

Lemma safe_with_name p n : safe (of_sum (with_name p n)).
Proof. unfold with_name. safe_prim. Qed.

Lemma safe_stat_size p : safe (stat_size p).
Proof. safe_prim. Qed.

Lemma safe_path_exists p : safe (path_exists p).
Proof. safe_prim. Qed.

Lemma safe_unlink p ok : safe (unlink p ok).
Proof. safe_prim. Qed.

Lemma safe_rename p q : safe (rename p q).
Proof. safe_prim. Qed.

Lemma safe_mkdir_p d : safe (mkdir_p d).
Proof. apply safe_for_each. intros q []. safe_prim. Qed.

Lemma safe_copy2 src dst : safe (copy2 src dst).
Proof. unfold copy2. safe_prim. Qed.

Lemma safe_image_open src : safe (image_open src).
Proof. unfold image_open. safe_prim. Qed.

Lemma safe_image_save im path kw : safe (image_save im path kw).
Proof. unfold image_save. safe_prim. Qed.

Lemma safe_of_codec {A} (o : option A) : safe (of_codec o).
Proof. destruct o; [apply safe_ret|by apply safe_raise]. Qed.

Lemma safe_save_image_to_tmp im tmp quality : safe (save_image_to_tmp im tmp quality).
Proof.
  unfold save_image_to_tmp.
  apply safe_bind; [|intros r; apply safe_bind; [apply safe_path_exists|intros e]].
  - repeat case_match;
      repeat first [apply safe_ret | apply safe_of_codec | apply safe_bind; [|intros ?]].
  - apply safe_bind; [|intros _; apply safe_image_save].
    destruct e; [apply safe_unlink|apply safe_ret].
Qed.

Lemma safe_bake_encode src output_fmt quality backup_dir :
  safe (bake_encode src output_fmt quality backup_dir).
Proof.
  unfold bake_encode.
  apply safe_bind; [apply safe_with_name|intros final].
  apply safe_bind; [apply safe_with_name|intros tmp].
  apply safe_bind; [|intros _].
  { destruct backup_dir; [|apply safe_ret].
    apply safe_bind; [apply safe_mkdir_p|intros _; apply safe_copy2]. }
  apply safe_bind; [apply safe_stat_size|intros s].
  apply safe_bind; [|intros _].
  { apply safe_bind; [apply safe_image_open|intros im; apply safe_save_image_to_tmp]. }
  apply safe_bind; [apply safe_path_exists|intros e].
  destruct e; simpl; [|by apply safe_raise].
  apply safe_bind; [apply safe_stat_size|intros t; apply safe_ret].
Qed.

Lemma safe_bake_settle src final tmp output_fmt del s t :
  safe (bake_settle src final tmp output_fmt del s t).
Proof.
  unfold bake_settle. destruct (wins output_fmt t s).
  - apply safe_bind; [|intros _].
    { apply safe_bind; [apply safe_path_exists|intros e].
      destruct e; [apply safe_unlink|apply safe_ret]. }
    apply safe_bind; [apply safe_rename|intros _].
    apply safe_bind; [|intros _; apply safe_ret].
    destruct del; [apply safe_unlink|apply safe_ret].
  - apply safe_bind; [apply safe_unlink|intros _; apply safe_ret].
Qed.

Lemma safe_bake_one src output_fmt quality del backup_dir skip :
  safe (bake_one src output_fmt quality del backup_dir skip).
Proof.
  unfold bake_one. destruct (skip && is_marked_d src); [apply safe_ret|].
  apply safe_bind; [apply safe_bake_encode|].
  intros [[[final tmp] s] t]. apply safe_bake_settle.
Qed.

(** ** The batch loops run to the end *)

Lemma for_each_total {A S} (body : A → S → M S) l :
  (∀ x s w, ∃ s' w', body x s w = (Ret s', w')) →
  ∀ s w, ∃ s' w', for_each l body s w = (Ret s', w').
Proof.
  intros Hb. induction l as [|x l IH]; intros s w; simpl.
  - by eexists _, _.
  - destruct (Hb x s w) as (s1 & w1 & H1). rewrite (bind_run _ _ _ _ _ H1). apply IH.
Qed.

Lemma for_each_readonly {A S} (body : A → S → M S) l :
  (∀ x s w, ∃ s', body x s w = (Ret s', w)) →
  ∀ s w, ∃ s', for_each l body s w = (Ret s', w).
Proof.
  intros Hb. induction l as [|x l IH]; intros s w; simpl.
  - by eexists.
  - destruct (Hb x s w) as (s1 & H1). rewrite (bind_run _ _ _ _ _ H1). apply IH.
Qed.

(** Fail-soft: whatever one bake does, the loop body counts it and goes on. *)
Lemma bake_loop_total output_fmt quality del backup_dir skip files :
  ∀ t w, ∃ t' w',
    for_each files
      (λ src (t : tallies),
         let '(baked, kept, errors) := t in
         try_except
           (o <- bake_one src output_fmt quality del backup_dir skip ;;
            let '(won, _, _, _) := o in
            ret (if won then (baked + 1, kept, errors)
                 else (baked, kept + 1, errors)))
           is_Exception
           (λ _, ret (baked, kept, errors + 1)))
      t w = (Ret t', w').
Proof.
  apply for_each_total. intros src [[baked kept] errors] w.
  unfold try_except, bind.
  destruct (bake_one src output_fmt quality del backup_dir skip w)
    as [[[[[won msg] a] b]|e] w1] eqn:E.
  - by eexists _, _.
  - rewrite (safe_bake_one _ _ _ _ _ _ _ _ _ E). by eexists _, _.
Qed.

Lemma folder_size_bytes_run folder w :
  ∃ z, folder_size_bytes folder w = (Ret z, w).
Proof.
  unfold folder_size_bytes, rglob.
  erewrite bind_run by reflexivity.
  apply for_each_readonly. intros p total w0. run_monad.
  destruct (w0 !! p) as [[d|]|] eqn:E; simpl; rewrite ?E; by eexists.
Qed.

Lemma total_size_run roots w : ∃ z, total_size roots w = (Ret z, w).
Proof.
  apply for_each_readonly. intros r acc w0.
  destruct (folder_size_bytes_run r w0) as [z Hz].
  rewrite (bind_run _ _ _ _ _ Hz). by eexists.
Qed.

Lemma total_size_single folder w : total_size [folder] w = folder_size_bytes folder w.
Proof.
  unfold total_size. simpl. unfold bind, ret.
  destruct (folder_size_bytes folder w) as [[z|e] w1]; [|done].
  by rewrite Z.add_0_l.
Qed.

(** ** Enumerating candidates *)

Lemma filterM_is_image_file_run l w :
  ∃ l', filterM is_image_file l w = (Ret l', w) ∧
        Forall (λ p, in_IMG_EXTS (Str.lower (suffix p)) = true) l'.
Proof.
  induction l as [|p l (l' & Hl & HF)]; simpl.
  - by eexists.
  - assert (∃ b, is_image_file p w = (Ret b, w) ∧
                 (b = true → in_IMG_EXTS (Str.lower (suffix p)) = true))
      as (b & Hb & Hext).
    { unfold is_image_file. run_monad. eexists. split; [done|].
      by intros [_ ?]%andb_true_iff. }
    rewrite (bind_run _ _ _ _ _ Hb), (bind_run _ _ _ _ _ Hl).
    eexists. split; [done|]. destruct b; [|done]. constructor; auto.
Qed.

Lemma iter_images_recursive_run folder w :
  ∃ files, iter_images_recursive folder w = (Ret files, w) ∧
           Forall (λ p, in_IMG_EXTS (Str.lower (suffix p)) = true) files.
Proof.
  unfold iter_images_recursive, rglob. erewrite bind_run by reflexivity.
  apply filterM_is_image_file_run.
Qed.

Lemma filter_Forall_id {A} (P : A → Prop) `{!∀ x, Decision (P x)} l :
  Forall P l → filter P l = l.
Proof.
  induction 1 as [|x l Hx _ IH]; [done|]. by rewrite filter_cons_True, IH.
Qed.

Lemma all_files_run roots w :
  ∀ acc, Forall (λ p, in_IMG_EXTS (Str.lower (suffix p)) = true) acc →
  ∃ l, for_each roots (λ r acc, l <- iter_images_recursive r ;; ret (acc ++ l)) acc w
         = (Ret l, w) ∧
       Forall (λ p, in_IMG_EXTS (Str.lower (suffix p)) = true) l.
Proof.
  induction roots as [|r roots IH]; intros acc Hacc; simpl.
  - by eexists.
  - destruct (iter_images_recursive_run r w) as (l & Hl & HF).
    erewrite bind_run by (by erewrite bind_run by exact Hl).
    apply IH. by apply Forall_app.
Qed.

Lemma all_mode_files_run roots skip w :
  ∃ files, all_mode_files roots skip w = (Ret files, w) ∧
           (skip = true → Forall (λ p, is_marked_d p = false) files).
Proof.
  unfold all_mode_files.
  destruct (all_files_run roots w [] (Forall_nil_2 _)) as (l & Hl & _).
  rewrite (bind_run _ _ _ _ _ Hl). eexists. split; [done|].
  intros ->. apply Forall_forall. by intros p [? _]%list_elem_of_filter.
Qed.

Lemma all_mode_files_single folder skip w files w' :
  iter_images_recursive folder w = (Ret files, w') →
  all_mode_files [folder] skip w
  = (Ret (if skip then filter (λ p, is_marked_d p = false) files else files), w').
Proof.
  intros Hf. destruct (iter_images_recursive_run folder w) as (l & Hl & HF).
  rewrite Hl in Hf. simplify_eq.
  unfold all_mode_files. simpl. unfold bind. rewrite Hl. unfold ret. simpl.
  by rewrite (filter_Forall_id _ _ HF).
Qed.

Lemma default_all_roots_run w : ∃ roots, default_all_roots w = (Ret roots, w).
Proof.
  unfold default_all_roots. generalize
    [join (join (join home "storage") "shared") "DCIM";
     join (join (join home "storage") "shared") "Pictures";
     join (join (join home "storage") "shared") "Download";
     join (join (join (join home "storage") "shared") "WhatsApp") "Media";
     join (join (join home "storage") "shared") "Telegram"].
  intros l. induction l as [|p l [r Hr]]; simpl; [by eexists|].
  erewrite bind_run by reflexivity. rewrite (bind_run _ _ _ _ _ Hr). by eexists.
Qed.

(** ** The claims about marked candidates and the drivers *)


(** The phrase with any white space before and after it strips to the
    phrase. *)
Lemma strip_padded_required (l r : list string) :
  Forall (λ ws, Str.is_white ws = true) l →
  Forall (λ ws, Str.is_white ws = true) r →
  Str.strip (foldr String.app "" l +:+ required +:+ foldr String.app "" r) = required.
Proof.
  intros Hl Hr. unfold Str.strip. rewrite lstrip_whites by done.
  assert (∀ t, Str.lstrip (required +:+ t) = required +:+ t) as -> by done.
  by rewrite rstrip_whites.
Qed.

(** C5, as amended. With deletion enabled and a confirmation that, once its
    leading and trailing white space is stripped, is not the required
    phrase, the multi-root driver is the computation that raises
    [SystemExit] with the refusal message: it performs no file operation,
    the disk is unchanged and the exit status is 1.  With deletion disabled,
    or with a confirmation that strips to the phrase, the lock is open: the
    driver then returns a summary whenever a default root exists, and exits
    with the message about missing roots when none does. *)
Theorem run_all_mode_safety_lock output_fmt quality del backup_dir skip confirm :
  (del = true → Str.strip confirm ≠ required →
   run_all_mode output_fmt quality del backup_dir skip confirm
     = raise (SystemExit refusing_message) ∧
   ∀ w, run_all_mode output_fmt quality del backup_dir skip confirm w
          = (Raise (SystemExit refusing_message), w) ∧
        exit_status (run_all_mode output_fmt quality del backup_dir skip confirm w).1 = 1) ∧
  (del = false ∨ Str.strip confirm = required →
   ∀ w roots w1, default_all_roots w = (Ret roots, w1) →
     (roots ≠ [] →
      ∃ summary w', run_all_mode output_fmt quality del backup_dir skip confirm w
                    = (Ret summary, w')) ∧
     (roots = [] →
      run_all_mode output_fmt quality del backup_dir skip confirm w
      = (Raise (SystemExit "No default image roots found. (Need Termux storage access?)"),
         w))).
Proof.
  split.
  - intros -> Hc%String.eqb_neq. unfold run_all_mode. rewrite Hc. simpl.
    split; [done|]. by intros w.
  - intros Hopen w roots w1 Hr.
    assert (del && negb (String.eqb (Str.strip confirm) required) = false) as Hg.
    { destruct Hopen as [->| ->]; [done|]. rewrite String.eqb_refl. apply andb_false_r. }
    unfold run_all_mode. rewrite Hg.
    destruct (default_all_roots_run w) as [roots' Hr']. rewrite Hr' in Hr. simplify_eq.
    rewrite (bind_run _ _ _ _ _ Hr'). split.
    + intros Hne. rewrite bool_decide_eq_false_2 by done.
      destruct (total_size_run roots w1) as [z Hz]. rewrite (bind_run _ _ _ _ _ Hz).
      destruct (all_mode_files_run roots skip w1) as (files & Hf & _).
      rewrite (bind_run _ _ _ _ _ Hf).
      destruct (bake_loop_total output_fmt quality del backup_dir skip files (0, 0, 0) w1)
        as ([[baked kept] errors] & w2 & Hl).
      rewrite (bind_run _ _ _ _ _ Hl).
      destruct (total_size_run roots w2) as [z' Hz']. rewrite (bind_run _ _ _ _ _ Hz').
      by eexists _, _.
    + intros ->. by rewrite bool_decide_eq_true_2.
Qed.

(** One step of the loop with more candidates already counted as kept. *)
Lemma bake_step_shift output_fmt quality del backup_dir skip src c baked kept errors
    w t1 w1 :
  try_except
    (o <- bake_one src output_fmt quality del backup_dir skip ;;
     let '(won, _, _, _) := o in
     ret (if won then (baked + 1, kept, errors) else (baked, kept + 1, errors)))
    is_Exception
    (λ _, ret (baked, kept, errors + 1)) w = (Ret t1, w1) →
  try_except
    (o <- bake_one src output_fmt quality del backup_dir skip ;;
     let '(won, _, _, _) := o in
     ret (if won then (baked + 1, kept + c, errors)
          else (baked, kept + c + 1, errors)))
    is_Exception
    (λ _, ret (baked, kept + c, errors + 1)) w
  = (Ret (t1.1.1, t1.1.2 + c, t1.2), w1).
Proof.
  unfold try_except, bind, ret.
  destruct (bake_one src output_fmt quality del backup_dir skip w)
    as [[[[[won msg] a] b]|e] w2].
  - destruct won; intros [= <- <-]; simpl; [done|].
    by replace (kept + 1 + c) with (kept + c + 1) by lia.
  - destruct (is_Exception e); [|done]. by intros [= <- <-].
Qed.

(** With [skip_if_marked] set, the loop over a list of candidates does to
    the disk what the loop over its unmarked members does, and counts each
    marked member as kept. *)
Lemma bake_loop_marked output_fmt quality del backup_dir files :
  ∀ c baked kept errors w t' w',
    for_each (filter (λ p, is_marked_d p = false) files)
      (λ src (t : tallies),
         let '(baked, kept, errors) := t in
         try_except
           (o <- bake_one src output_fmt quality del backup_dir true ;;
            let '(won, _, _, _) := o in
            ret (if won then (baked + 1, kept, errors)
                 else (baked, kept + 1, errors)))
           is_Exception
           (λ _, ret (baked, kept, errors + 1)))
      (baked, kept, errors) w = (Ret t', w') →
    for_each files
      (λ src (t : tallies),
         let '(baked, kept, errors) := t in
         try_except
           (o <- bake_one src output_fmt quality del backup_dir true ;;
            let '(won, _, _, _) := o in
            ret (if won then (baked + 1, kept, errors)
                 else (baked, kept + 1, errors)))
           is_Exception
           (λ _, ret (baked, kept, errors + 1)))
      (baked, kept + c, errors) w
    = (Ret (t'.1.1,
            t'.1.2 + c + Z.of_nat (length (filter (λ p, is_marked_d p = true) files)),
            t'.2), w').
Proof.
  induction files as [|src files IH]; intros c baked kept errors w t' w'.
  - simpl. intros [= <- <-]. simpl. by rewrite Z.add_0_r.
  - rewrite !filter_cons. destruct (is_marked_d src) eqn:Hm.
    + rewrite decide_False, decide_True by done. intros Hl.
      apply (IH (c + 1)) in Hl. simpl for_each.
      erewrite bind_run.
      2:{ rewrite bake_one_skip by done. reflexivity. }
      cbv beta iota. rewrite <- Z.add_assoc, Hl. do 4 f_equal.
      rewrite length_cons. lia.
    + rewrite decide_True, decide_False by done. simpl for_each.
      intros ([[b1 k1] e1] & w1 & Hb & Hl)%bind_inv.
      apply (bake_step_shift _ _ _ _ _ _ c) in Hb. simpl in Hb.
      erewrite bind_run by exact Hb. by apply IH.
Qed.

Lemma length_filter_marked (files : list Path) :
  Z.of_nat (length files)
  = Z.of_nat (length (filter (λ p, is_marked_d p = false) files))
    + Z.of_nat (length (filter (λ p, is_marked_d p = true) files)).
Proof.
  induction files as [|p files IH]; [done|].
  rewrite !filter_cons. destruct (is_marked_d p).
  - rewrite decide_False, decide_True by done. rewrite !length_cons. lia.
  - rewrite decide_True, decide_False by done. rewrite !length_cons. lia.
Qed.

(** C9, as amended. Take a disk whose single default root is a directory,
    an open safety lock, and the candidates [files] that the recursive scan
    finds under that root; let [marked] be those of them that carry the
    tag when [skip_if_marked] is set, and none otherwise. The single-folder
    driver run recursively on that root loops over [files], the multi-root
    driver over [files] without [marked]. On every candidate outside
    [marked] they do the same: both drivers return, leave the same disk,
    and report the same wins, the same errors and the same sizes. Each
    candidate in [marked] is skipped by [bake_one] and counted as kept by
    the single-folder driver, and is counted nowhere by the multi-root
    driver: the kept tallies and the totals differ by the length of
    [marked]. With no candidate in [marked] the two summaries are equal. *)
Theorem drivers_agree_up_to_marked root output_fmt quality del backup_dir
    (skip : bool) confirm w w0 (files : list Path) w1 :
  del && negb (String.eqb (Str.strip confirm) required) = false →
  default_all_roots w = (Ret [root], w0) →
  w !! root = Some Dir →
  iter_images_recursive root w = (Ret files, w1) →
  let marked : list Path :=
    if skip then filter (λ p, is_marked_d p = true) files else [] in
  let unmarked : list Path :=
    if skip then filter (λ p, is_marked_d p = false) files else files in
  all_mode_files [root] skip w = (Ret unmarked, w) ∧
  (∀ p, p ∈ marked →
     (p ∈ files) ∧ (p ∉ unmarked) ∧
     bake_one p output_fmt quality del backup_dir skip
     = ret (false, skip_message p, 0, 0)) ∧
  ∃ all_summary folder_summary w',
    run_all_mode output_fmt quality del backup_dir skip confirm w
      = (Ret all_summary, w') ∧
    run_folder_mode root output_fmt quality del backup_dir skip true w
      = (Ret folder_summary, w') ∧
    total_images folder_summary = Z.of_nat (length files) ∧
    total_images all_summary = Z.of_nat (length unmarked) ∧
    total_images folder_summary
      = total_images all_summary + Z.of_nat (length marked) ∧
    kept_original folder_summary
      = kept_original all_summary + Z.of_nat (length marked) ∧
    baked_wins folder_summary = baked_wins all_summary ∧
    error_count folder_summary = error_count all_summary ∧
    size_before folder_summary = size_before all_summary ∧
    size_after folder_summary = size_after all_summary ∧
    (marked = [] → folder_summary = all_summary).
Proof.
  intros Hg Hr Hd Hf marked unmarked.
  destruct (default_all_roots_run w) as [roots' Hr']. rewrite Hr' in Hr. simplify_eq.
  destruct (iter_images_recursive_run root w0) as (files' & Hf' & _).
  rewrite Hf' in Hf. simplify_eq.
  assert (all_mode_files [root] skip w1 = (Ret unmarked, w1)) as Ha
    by apply (all_mode_files_single _ _ _ _ _ Hf').
  destruct (folder_size_bytes_run root w1) as [z Hz].
  destruct (bake_loop_total output_fmt quality del backup_dir skip unmarked (0, 0, 0) w1)
    as ([[baked kept] errors] & w2 & Hl).
  destruct (folder_size_bytes_run root w2) as [z' Hz'].
  assert (for_each files
            (λ src (t : tallies),
               let '(baked, kept, errors) := t in
               try_except
                 (o <- bake_one src output_fmt quality del backup_dir skip ;;
                  let '(won, _, _, _) := o in
                  ret (if won then (baked + 1, kept, errors)
                       else (baked, kept + 1, errors)))
                 is_Exception
                 (λ _, ret (baked, kept, errors + 1)))
            (0, 0, 0) w1
          = (Ret (baked, kept + Z.of_nat (length marked), errors), w2)) as Hl'.
  { subst marked unmarked. destruct skip.
    - apply (bake_loop_marked _ _ _ _ _ 0) in Hl. simpl in Hl.
      by rewrite !Z.add_0_r in Hl.
    - by rewrite Z.add_0_r. }
  assert (Z.of_nat (length files)
          = Z.of_nat (length unmarked) + Z.of_nat (length marked)) as Hlen.
  { subst marked unmarked. destruct skip; [apply length_filter_marked|simpl; lia]. }
  split_and!; [done| |].
  - intros p Hp. subst marked unmarked. destruct skip; [|by apply elem_of_nil in Hp].
    apply list_elem_of_filter in Hp as [Hm Hin]. split_and!; [done| |].
    + intros [Hu _]%list_elem_of_filter. congruence.
    + by apply bake_one_skip.
  - exists (mkSummary (Z.of_nat (length unmarked)) baked kept errors z z'),
      (mkSummary (Z.of_nat (length files)) baked (kept + Z.of_nat (length marked))
         errors z z'), w2.
    split_and!; simpl; try done.
    + unfold run_all_mode. rewrite Hg, (bind_run _ _ _ _ _ Hr').
      rewrite bool_decide_eq_false_2 by done.
      erewrite bind_run by (rewrite total_size_single; exact Hz).
      rewrite (bind_run _ _ _ _ _ Ha), (bind_run _ _ _ _ _ Hl).
      by erewrite bind_run by (rewrite total_size_single; exact Hz').
    + unfold run_folder_mode.
      assert (is_dir root w1 = (Ret true, w1)) as Hi by (run_monad; by rewrite Hd).
      rewrite (bind_run _ _ _ _ _ Hi). simpl.
      rewrite (bind_run _ _ _ _ _ Hz), (bind_run _ _ _ _ _ Hf'), (bind_run _ _ _ _ _ Hl').
      by rewrite (bind_run _ _ _ _ _ Hz').
    + intros Hnil. rewrite Hnil in Hlen |- *. simpl in *.
      rewrite Z.add_0_r in *. by rewrite Hlen.
Qed.

(** ** What the scans return *)

Lemma filterM_is_image_file_eq l w :
  filterM is_image_file l w
  = (Ret (filter (λ p, is_Some (file_at w p) ∧
                       in_IMG_EXTS (Str.lower (suffix p)) = true) l), w).
Proof.
  induction l as [|p l IH]; [done|]. simpl.
  assert (is_image_file p w
          = (Ret (bool_decide (is_Some (file_at w p) ∧
                               in_IMG_EXTS (Str.lower (suffix p)) = true)), w)) as Hp.
  { unfold is_image_file. run_monad. do 2 f_equal. symmetry. unfold file_at.
    destruct (w !! p) as [[d|]|]; destruct (in_IMG_EXTS _);
      first [ apply bool_decide_eq_true_2; by eauto
            | apply bool_decide_eq_false_2; intros [[? ?] ?]; done ]. }
  rewrite (bind_run _ _ _ _ _ Hp), (bind_run _ _ _ _ _ IH). unfold ret.
  rewrite filter_cons. by case_bool_decide; case_decide.
Qed.

Lemma elem_of_keys (w : World) p : p ∈ (map_to_list w).*1 ↔ is_Some (w !! p).
Proof.
  rewrite list_elem_of_fmap. split.
  - intros ([q n] & -> & Hin). apply elem_of_map_to_list in Hin. by eexists.
  - intros [n Hn]. exists (p, n). split; [done|]. by apply elem_of_map_to_list.
Qed.

Lemma file_at_is_Some (w : World) p : is_Some (file_at w p) → is_Some (w !! p).
Proof. unfold file_at. destruct (w !! p); [by eexists|by intros [? [=]]]. Qed.


Global Instance path_le_trans : Transitive path_le.
Proof. intros p q r. unfold path_le. apply transitivity. Qed.

Global Instance path_le_total : Total path_le.
Proof. intros p q. unfold path_le. apply total, _. Qed.

Lemma iter_images_recursive_eq folder w :
  iter_images_recursive folder w
  = (Ret (filter (λ p, is_Some (file_at w p) ∧
                       in_IMG_EXTS (Str.lower (suffix p)) = true)
            (filter (λ p, is_under folder p = true) (map_to_list w).*1)), w).
Proof.
  unfold iter_images_recursive, rglob. erewrite bind_run by reflexivity.
  apply filterM_is_image_file_eq.
Qed.

Lemma iterdir_eq folder w :
  w !! folder = Some Dir →
  iterdir folder w
  = (Ret (filter (λ p, is_child folder p = true) (map_to_list w).*1), w).
Proof. intros Hd. unfold iterdir. run_monad. by rewrite Hd. Qed.

Lemma iterdir_raise folder w :
  w !! folder ≠ Some Dir →
  iterdir folder w
  = (Raise (match w !! folder with
            | None => FileNotFoundError (path_str folder)
            | Some _ => NotADirectoryError
            end), w).
Proof. intros Hd. unfold iterdir. run_monad. by destruct (w !! folder) as [[?|]|]. Qed.

Lemma iter_images_flat_eq folder w :
  w !! folder = Some Dir →
  iter_images_flat folder w
  = (Ret (filter (λ p, is_Some (file_at w p) ∧
                       in_IMG_EXTS (Str.lower (suffix p)) = true)
            (sorted (filter (λ p, is_child folder p = true) (map_to_list w).*1))), w).
Proof.
  intros Hd. unfold iter_images_flat. rewrite (bind_run _ _ _ _ _ (iterdir_eq _ _ Hd)).
  apply filterM_is_image_file_eq.
Qed.

Lemma iter_images_flat_raise folder w :
  w !! folder ≠ Some Dir →
  iter_images_flat folder w
  = (Raise (match w !! folder with
            | None => FileNotFoundError (path_str folder)
            | Some _ => NotADirectoryError
            end), w).
Proof.
  intros Hd. unfold iter_images_flat.
  by rewrite (bind_run_raise _ _ _ _ _ (iterdir_raise _ _ Hd)).
Qed.

(** X1. The recursive scan returns, without changing the disk, each file
    below the folder (at any depth) whose extension is an image extension
    once in lower case, each of them once, and nothing else. *)
Theorem iter_images_recursive_spec folder w :
  ∃ files,
    iter_images_recursive folder w = (Ret files, w) ∧
    NoDup files ∧
    ∀ p, p ∈ files ↔
         is_under folder p = true ∧ is_Some (file_at w p) ∧
         in_IMG_EXTS (Str.lower (suffix p)) = true.
Proof.
  eexists. split_and!; [apply iter_images_recursive_eq| |].
  - do 2 apply NoDup_filter. apply NoDup_fst_map_to_list.
  - intros p. rewrite !list_elem_of_filter, elem_of_keys. split.
    + by intros [[Hf He] [Hu _]].
    + intros (Hu & Hf & He). split_and!; try done. by apply file_at_is_Some.
Qed.


(** X3. Whatever the flat scan of a folder finds, the recursive scan of the
    same folder finds too. *)
Theorem flat_scan_within_recursive folder w flat deep w1 w2 :
  iter_images_flat folder w = (Ret flat, w1) →
  iter_images_recursive folder w = (Ret deep, w2) →
  flat ⊆ deep.
Proof.
  destruct (w !! folder) as [[d|]|] eqn:Hd;
    [rewrite iter_images_flat_raise by (by rewrite Hd); by rewrite Hd| |
     rewrite iter_images_flat_raise by (by rewrite Hd); by rewrite Hd].
  rewrite iter_images_flat_eq, iter_images_recursive_eq by done.
  intros [= <- _] [= <- _] p. unfold sorted.
  rewrite !list_elem_of_filter, merge_sort_Permutation, list_elem_of_filter.
  intros ([Hf He] & Hc & Hk). split_and!; [done|done| |done].
  unfold is_child in Hc. apply bool_decide_eq_true in Hc.
  unfold is_under. apply bool_decide_eq_true. by rewrite Hc.
Qed.

(** ** Which files a computation can change *)

Lemma bind_raise_inv {A B} (m : M A) (k : A → M B) w e w2 :
  bind m k w = (Raise e, w2) →
  m w = (Raise e, w2) ∨ ∃ a w1, m w = (Ret a, w1) ∧ k a w1 = (Raise e, w2).
Proof. unfold bind. destruct (m w) as [[a|e1] w1]; [eauto|]. intros [= <- <-]. by left. Qed.

Lemma touches_ret {A} S (a : A) : touches_only S (ret a).
Proof. by intros w r w' [= <- <-]. Qed.

Lemma touches_raise {A} S e : touches_only S (@raise A e).
Proof. by intros w r w' [= <- <-]. Qed.

Lemma touches_bind {A B} S (m : M A) (k : A → M B) :
  touches_only S m → (∀ a, touches_only S (k a)) → touches_only S (bind m k).
Proof.
  intros Hm Hk w r w' H p Hp. unfold bind in H.
  destruct (m w) as [[a|e] w1] eqn:E.
  - rewrite (Hk a _ _ _ H p Hp). by eapply Hm.
  - simplify_eq. by eapply Hm.
Qed.

Lemma touches_for_each {A T} S (body : A → T → M T) l s :
  (∀ x s, touches_only S (body x s)) → touches_only S (for_each l body s).
Proof.
  intros Hb. revert s. induction l as [|x l IH]; intros s; simpl.
  - apply touches_ret.
  - apply touches_bind; [apply Hb|apply IH].
Qed.

Lemma touches_try_except {A} S (m : M A) handles h :
  touches_only S m → (∀ e, touches_only S (h e)) → touches_only S (try_except m handles h).
Proof.
  intros Hm Hh w r w' H p Hp. unfold try_except in H.
  destruct (m w) as [[a|e] w1] eqn:E.
  - simplify_eq. by eapply Hm.
  - destruct (handles e).
    + rewrite (Hh e _ _ _ H p Hp). by eapply Hm.
    + simplify_eq. by eapply Hm.
Qed.

Ltac touches_read :=
  intros ? ? ? H ? _; revert H; run_monad; repeat case_match; intros; simplify_eq; done.

Lemma touches_of_sum {A} S (x : exn + A) : touches_only S (of_sum x).
Proof. destruct x; [apply touches_raise|apply touches_ret]. Qed.

Lemma touches_path_exists S p : touches_only S (path_exists p).
Proof. touches_read. Qed.

Lemma touches_is_file S p : touches_only S (is_file p).
Proof. touches_read. Qed.

Lemma touches_stat_size S p : touches_only S (stat_size p).
Proof. touches_read. Qed.

Lemma touches_image_open S src : touches_only S (image_open src).
Proof. unfold image_open. touches_read. Qed.

Lemma touches_of_codec {A} S (o : option A) : touches_only S (of_codec o).
Proof. destruct o; [apply touches_ret|apply touches_raise]. Qed.

Lemma file_at_delete_ne (w : World) p q : q ≠ p → file_at (delete p w) q = file_at w q.
Proof. intros H. unfold file_at. by rewrite lookup_delete_ne. Qed.

Lemma file_at_insert_ne (w : World) p n q : q ≠ p → file_at (<[p := n]> w) q = file_at w q.
Proof. intros H. unfold file_at. by rewrite lookup_insert_ne. Qed.

Lemma touches_unlink (S : Path → Prop) p ok : S p → touches_only S (unlink p ok).
Proof.
  intros Hp w r w' H q Hq. assert (q ≠ p) by (by intros ->).
  revert H. run_monad. repeat case_match; intros; simplify_eq; try done.
  by apply file_at_delete_ne.
Qed.

Lemma touches_rename (S : Path → Prop) p q : S p → S q → touches_only S (rename p q).
Proof.
  intros Hp Hq w r w' H x Hx.
  assert (x ≠ p) by (by intros ->). assert (x ≠ q) by (by intros ->).
  revert H. run_monad. repeat case_match; intros; simplify_eq; try done.
  all: by rewrite file_at_insert_ne, file_at_delete_ne.
Qed.

Lemma touches_mkdir_p S d : touches_only S (mkdir_p d).
Proof.
  apply touches_for_each. intros q [] w r w' H p _. revert H. run_monad.
  destruct (w !! q) as [[?|]|] eqn:E; intros; simplify_eq; try done.
  by apply file_at_insert_dir.
Qed.

Lemma touches_copy2 (S : Path → Prop) src dst :
  (∀ x, x ≠ src → x = dst ∨ x = join dst (name src) → S x) →
  touches_only S (copy2 src dst).
Proof.
  intros HS w r w' H p Hp. revert H. unfold copy2. run_monad.
  set (dst' := match w !! dst with Some Dir => join dst (name src) | _ => dst end).
  assert (dst' = dst ∨ dst' = join dst (name src)) as Hd.
  { subst dst'. destruct (w !! dst) as [[?|]|]; auto. }
  case_bool_decide as Hne; [by intros; simplify_eq|].
  assert (p ≠ dst') as Hpd by (intros ->; apply Hp, HS; [congruence|done]).
  repeat case_match; intros; simplify_eq; try done.
  all: by apply file_at_insert_ne.
Qed.

Lemma touches_image_save (S : Path → Prop) im path kw :
  S path → touches_only S (image_save im path kw).
Proof.
  intros Hs w r w' H p Hp. assert (p ≠ path) by (by intros ->).
  revert H. unfold image_save. run_monad.
  repeat case_match; intros; simplify_eq; try done.
  all: by apply file_at_insert_ne.
Qed.

Lemma touches_save_image_to_tmp (S : Path → Prop) im tmp quality :
  S tmp → touches_only S (save_image_to_tmp im tmp quality).
Proof.
  intros Hs. unfold save_image_to_tmp.
  apply touches_bind; [|intros r; apply touches_bind; [apply touches_path_exists|intros e]].
  - repeat case_match;
      repeat first [apply touches_ret | apply touches_of_codec
                   | apply touches_bind; [|intros ?]].
  - apply touches_bind; [|intros _; by apply touches_image_save].
    destruct e; [by apply touches_unlink|apply touches_ret].
Qed.

(** The encode stage changes the temp path and the place of the backup copy,
    which bears the name of the original, and nothing else. *)
Lemma touches_bake_encode src output_fmt quality backup_dir final tmp :
  mark_name src (target_ext src output_fmt) = inr final →
  safe_tmp_name final = inr tmp →
  touches_only (λ p, p = tmp ∨ (name p = name src ∧ p ≠ src))
    (bake_encode src output_fmt quality backup_dir).
Proof.
  intros Hf Ht. unfold bake_encode. rewrite Hf.
  intros w r w'. change (bind (of_sum (inr final)) ?k w) with (k final w).
  cbv beta. rewrite Ht. change (bind (of_sum (inr tmp)) ?k w) with (k tmp w).
  cbv beta. revert w r w'.
  apply touches_bind; [|intros _].
  { destruct backup_dir as [d|]; [|apply touches_ret].
    apply touches_bind; [apply touches_mkdir_p|intros _].
    apply touches_copy2. intros x Hx [->| ->]; by right. }
  apply touches_bind; [apply touches_stat_size|intros s].
  apply touches_bind; [|intros _].
  { apply touches_bind; [apply touches_image_open|intros im].
    apply touches_save_image_to_tmp. by left. }
  apply touches_bind; [apply touches_path_exists|intros e].
  destruct e; simpl; [|apply touches_raise].
  apply touches_bind; [apply touches_stat_size|intros t; apply touches_ret].
Qed.

Lemma touches_bake_settle src final tmp output_fmt del s t :
  touches_only (λ p, p = tmp ∨ p = final ∨ (del = true ∧ p = src))
    (bake_settle src final tmp output_fmt del s t).
Proof.
  unfold bake_settle. destruct (wins output_fmt t s).
  - apply touches_bind; [|intros _].
    { apply touches_bind; [apply touches_path_exists|intros e].
      destruct e; [apply touches_unlink; auto|apply touches_ret]. }
    apply touches_bind; [apply touches_rename; auto|intros _].
    apply touches_bind; [|intros _; apply touches_ret].
    destruct del; [apply touches_unlink; auto|apply touches_ret].
  - apply touches_bind; [apply touches_unlink; auto|intros _; apply touches_ret].
Qed.

(** The settle stage raises only when a directory sits at the final path,
    and then before it changed anything. *)
Lemma bake_settle_raise src final tmp output_fmt del s t w1 e w2 d dt :
  bake_settle src final tmp output_fmt del s t w1 = (Raise e, w2) →
  w1 !! src = Some (File d) → w1 !! tmp = Some (File dt) →
  final ≠ tmp → src ≠ final → src ≠ tmp →
  w2 = w1 ∧ w1 !! final = Some Dir ∧ e = IsADirectoryError.
Proof.
  intros H Hs Ht Hft Hsf Hst.
  destruct (wins output_fmt t s) eqn:Hw.
  - destruct (w1 !! final) as [[df|]|] eqn:Hd.
    + rewrite (bake_settle_win _ _ _ _ _ _ _ _ dt) in H; try done; by rewrite ?Hd, ?Hs.
    + revert H. unfold bake_settle. rewrite Hw. run_monad. rewrite Hd.
      cbv beta iota. rewrite Hd. by intros [= <- <-].
    + rewrite (bake_settle_win _ _ _ _ _ _ _ _ dt) in H; try done; by rewrite ?Hd, ?Hs.
  - by rewrite (bake_settle_keep _ _ _ _ _ _ _ _ dt) in H.
Qed.

(** ** More about one bake *)

Lemma bake_encode_names src output_fmt quality backup_dir w r w' :
  bake_encode src output_fmt quality backup_dir w = (r, w') →
  (∃ final tmp, mark_name src (target_ext src output_fmt) = inr final ∧
                safe_tmp_name final = inr tmp) ∨
  ((∀ final tmp, mark_name src (target_ext src output_fmt) = inr final →
                 safe_tmp_name final ≠ inr tmp) ∧ w' = w).
Proof.
  unfold bake_encode.
  destruct (mark_name src (target_ext src output_fmt)) as [e|final] eqn:Hf.
  - intros [= _ <-]. by right.
  - change (bind (of_sum (inr final)) ?k w) with (k final w). cbv beta.
    destruct (safe_tmp_name final) as [e|tmp] eqn:Ht.
    + intros [= _ <-]. right. split; [|done]. intros ? ? [= <-]. by rewrite Ht.
    + intros _. left. eauto.
Qed.

(** X8. In keep mode every outcome that [bake_one] returns (won, kept or
    skipped) records a resulting size that is at most the original size, and
    the outcome is a win exactly when the resulting size is strictly
    smaller. *)
Theorem keep_mode_never_reports_growth src quality del backup_dir skip w
    won msg a b w' :
  bake_one src "keep" quality del backup_dir skip w = (Ret (won, msg, a, b), w') →
  b ≤ a ∧ (won = true ↔ b < a).
Proof.
  unfold bake_one. destruct (skip && is_marked_d src).
  - intros [= <- _ <- <- _]. split; [lia|]. split; [done|lia].
  - intros ([[[final tmp] s] t] & w1 & _ & Hs)%bind_inv.
    unfold bake_settle in Hs. destruct (wins "keep" t s) eqn:Hw.
    + apply bind_inv in Hs as (? & ? & _ & Hs).
      apply bind_inv in Hs as (? & ? & _ & Hs).
      apply bind_inv in Hs as (? & ? & _ & Hs).
      unfold ret in Hs. simplify_eq. apply wins_keep in Hw. split; [lia|done].
    + apply bind_inv in Hs as (? & ? & _ & Hs).
      unfold ret in Hs. simplify_eq. split; [lia|]. split; [done|lia].
Qed.

(** X9. When [bake_one] raises, the exception is an [Exception] (never
    [SystemExit]), the original file holds the bytes it held, the final
    marked path holds what it held, and so does every other file that is
    neither at the temp path nor named like the original (the backup copy
    is): a failed bake changes nothing but, at most, the temp path and the
    backup. *)
Theorem bake_one_failure_changes_nothing src output_fmt quality del backup_dir skip
    w e w' :
  bake_one src output_fmt quality del backup_dir skip w = (Raise e, w') →
  is_Exception e = true ∧
  file_at w' src = file_at w src ∧
  (∀ final, mark_name src (target_ext src output_fmt) = inr final →
            file_at w' final = file_at w final) ∧
  (∀ p, name p ≠ name src →
        (∀ final tmp, mark_name src (target_ext src output_fmt) = inr final →
                      safe_tmp_name final = inr tmp → p ≠ tmp) →
        file_at w' p = file_at w p).
Proof.
  intros H. split; [by eapply safe_bake_one|].
  assert (∀ p, (name p ≠ name src ∨ p = src) →
            (∀ final tmp, mark_name src (target_ext src output_fmt) = inr final →
                          safe_tmp_name final = inr tmp → p ≠ tmp) →
            file_at w' p = file_at w p) as Hfr.
  { intros p Hn Hp. revert H. unfold bake_one.
    destruct (skip && is_marked_d src); [done|].
    intros [He|([[[final tmp] s] t] & w1 & He & Hs)]%bind_raise_inv.
    - destruct (bake_encode_names _ _ _ _ _ _ _ He) as [(final & tmp & Hf & Ht)|[_ ->]];
        [|done].
      apply (touches_bake_encode _ _ quality backup_dir _ _ Hf Ht _ _ _ He).
      destruct (bake_paths _ _ _ _ Hf Ht) as (_ & _ & _ & Hts & _).
      intros [->|[Hn' Hne]]; [by eapply Hp|]. by destruct Hn as [Hn| ->].
    - destruct (bake_encode_spec _ _ _ _ _ _ _ _ _ _ He)
        as (Hf & Ht & d & dt & _ & _ & Hs1 & Ht1 & _ & _ & Hfr1).
      destruct (bake_paths _ _ _ _ Hf Ht) as (_ & _ & Hfs & Hts & Htf).
      apply (bake_settle_raise _ _ _ _ _ _ _ _ _ _ d dt) in Hs as (-> & _ & _);
        try done; [|by intros ->..].
      apply Hfr1; [by eapply Hp|done]. }
  split_and!.
  - apply Hfr; [by right|]. intros final tmp Hf Ht ->.
    by destruct (bake_paths _ _ _ _ Hf Ht) as (_ & _ & _ & Hts & _).
  - intros final Hf. apply Hfr.
    + left. apply mark_name_inr in Hf as ->. simpl. apply final_name_neq_src.
    + intros final' tmp Hf' Ht ->. rewrite Hf in Hf'. simplify_eq.
      by destruct (bake_paths _ _ _ _ Hf Ht) as (_ & _ & _ & _ & Htf).
  - intros p Hn Hp. apply Hfr; [by left|done].
Qed.

(** X10. With [delete_original_on_win] off, [bake_one] never changes the
    original: whatever the result (won, kept, skipped or an exception), the
    candidate path holds afterwards what it held before. *)
Theorem safe_mode_keeps_original src output_fmt quality backup_dir skip w r w' :
  bake_one src output_fmt quality false backup_dir skip w = (r, w') →
  file_at w' src = file_at w src.
Proof.
  unfold bake_one. destruct (skip && is_marked_d src); [by intros [= _ <-]|].
  unfold bind.
  destruct (bake_encode src output_fmt quality backup_dir w) as [[a|e] w1] eqn:He.
  - destruct a as [[[final tmp] s] t]. intros Hs.
    destruct (bake_encode_spec _ _ _ _ _ _ _ _ _ _ He)
      as (Hf & Ht & d & dt & Hd & _ & Hs1 & _ & _ & _ & _).
    destruct (bake_paths _ _ _ _ Hf Ht) as (_ & _ & Hfs & Hts & _).
    rewrite (touches_bake_settle _ _ _ _ _ _ _ _ _ _ Hs src).
    + rewrite Hd. unfold file_at. by rewrite Hs1.
    + intros [->|[->|[? _]]]; done.
  - intros [= <- <-].
    destruct (bake_encode_names _ _ _ _ _ _ _ He) as [(final & tmp & Hf & Ht)|[_ ->]];
      [|done].
    apply (touches_bake_encode _ _ quality backup_dir _ _ Hf Ht _ _ _ He).
    destruct (bake_paths _ _ _ _ Hf Ht) as (_ & _ & _ & Hts & _).
    intros [->|[_ Hne]]; done.
Qed.


Lemma bind_ret_l {A B} (a : A) (k : A → M B) : bind (ret a) k = k a.
Proof. reflexivity. Qed.

Lemma copy2_dest src dst w w1 :
  copy2 src dst w = (Ret tt, w1) →
  ∃ dst' d, dst' ≠ src ∧ (dst' = dst ∨ dst' = join dst (name src)) ∧
            w !! src = Some (File d) ∧ w1 = <[dst' := File d]> w.
Proof.
  unfold copy2, bind, get_nodes, put_nodes, ret, raise.
  set (dst' := match w !! dst with Some Dir => join dst (name src) | _ => dst end).
  assert (dst' = dst ∨ dst' = join dst (name src)) as Hn.
  { subst dst'. destruct (w !! dst) as [[?|]|]; auto. }
  case_bool_decide as Hsd; [done|].
  destruct (w !! src) as [[d|]|] eqn:Es; try done.
  destruct (w !! dst') as [[?|]|] eqn:Ed; try done; intros [= <-];
    exists dst', d; split_and!; try done; congruence.
Qed.

(** X11. With a backup directory, every bake that is not skipped and
    returns an outcome (won or kept) leaves a copy of the original bytes in
    the backup directory under the original's name (or inside a directory
    of that name, if one is there), at a path other than the original's;
    the copy is there also after a win that deleted the original. *)
Theorem backup_holds_original_bytes src output_fmt quality del d skip w o w' :
  skip && is_marked_d src = false →
  bake_one src output_fmt quality del (Some d) skip w = (Ret o, w') →
  ∃ dst orig,
    file_at w src = Some orig ∧ dst ≠ src ∧
    (dst = join d (name src) ∨ dst = join (join d (name src)) (name src)) ∧
    file_at w' dst = Some orig.
Proof.
  intros Hskip H. unfold bake_one in H. rewrite Hskip in H.
  apply bind_inv in H as ([[[final tmp] s] t] & w1 & He & Hs).
  destruct (bake_encode_spec _ _ _ _ _ _ _ _ _ _ He) as (Hf & Ht & _).
  destruct (bake_paths _ _ _ _ Hf Ht) as (_ & _ & Hfs & Hts & _).
  unfold bake_encode in He.
  apply bind_inv in He as (? & ? & [? ->]%of_sum_inv & He).
  apply bind_inv in He as (? & ? & [? ->]%of_sum_inv & He). simplify_eq.
  apply bind_inv in He as ([] & wb & ([] & wa & Hm & Hc)%bind_inv & He).
  apply bind_inv in He as (? & ? & [-> _]%stat_size_inv & He).
  apply bind_inv in He as ([] & wd & (im & ? & ->%image_open_inv & Hsv)%bind_inv & He).
  apply bind_inv in He as (e & ? & [-> _]%path_exists_inv & He).
  destruct e; simpl in He; [|done].
  apply bind_inv in He as (? & ? & [-> _]%stat_size_inv & He).
  unfold ret in He. simplify_eq.
  apply copy2_dest in Hc as (dst & orig & Hne & Hd & Hsrc & ->).
  assert (name dst = name src) as Hn by (by destruct Hd as [->| ->]).
  exists dst, orig. split_and!; try done.
  - rewrite <- (mkdir_p_frame _ _ _ Hm). unfold file_at. by rewrite Hsrc.
  - rewrite (touches_bake_settle _ _ _ _ _ _ _ _ _ _ Hs dst).
    + unfold file_at. rewrite (save_image_to_tmp_inv _ _ _ _ _ Hsv) by congruence.
      by rewrite lookup_insert_eq.
    + intros [->|[->|[_ ->]]]; congruence.
Qed.

(** X13. When [save_image_to_tmp] returns, the temp path holds exactly what
    the encoder wrote there (nothing, if it wrote nothing): a file that lay
    at the temp path before the call is never what remains; every other
    path is as it was. *)
Theorem save_image_to_tmp_output im tmp quality w w1 :
  save_image_to_tmp im tmp quality w = (Ret tt, w1) →
  ∃ im' kw out,
    pil_save im' tmp kw = SaveReturned out ∧
    w1 !! tmp = File <$> out ∧
    ∀ p, p ≠ tmp → w1 !! p = w !! p.
Proof.
  intros H. pose proof (save_image_to_tmp_inv _ _ _ _ _ H) as Hfr.
  unfold save_image_to_tmp in H.
  apply bind_inv in H as ([im' kw] & wa & Hr & H).
  apply bind_inv in H as (e & wa' & [Heq He]%path_exists_inv & H). subst wa'.
  apply bind_inv in H as ([] & wb & Hu & Hs).
  assert (wb !! tmp = None) as Hnone.
  { destruct e.
    - apply unlink_inv in Hu as ->. apply lookup_delete_eq.
    - unfold ret in Hu. injection Hu as Hw. subst wb.
      destruct (wa !! tmp) eqn:E; [|done].
      assert (false = true) as [=]. apply He. by eexists. }
  simpl in Hs. unfold image_save in Hs. revert Hs. run_monad.
  destruct (pil_save im' tmp kw) as [[dout|]|[dout|]] eqn:Hp; intros [= <-].
  - exists im', kw, (Some dout). split_and!; [done| |done]. apply lookup_insert_eq.
  - exists im', kw, None. by split_and!.
Qed.

(** X14. A backup directory that is the candidate's own folder: the copy
    would land on the original itself, so [bake_one] always raises, and no
    file has changed. *)
Theorem backup_into_own_folder_fails src output_fmt quality del d skip w orig :
  join d (name src) = src →
  w !! src = Some (File orig) →
  skip && is_marked_d src = false →
  ∃ e w', bake_one src output_fmt quality del (Some d) skip w = (Raise e, w') ∧
          ∀ p, file_at w' p = file_at w p.
Proof.
  intros Hj Hsrc Hskip. unfold bake_one. rewrite Hskip. unfold bake_encode.
  destruct (mark_name src (target_ext src output_fmt)) as [e|final];
    [by exists e, w|].
  unfold of_sum at 1. rewrite bind_ret_l.
  destruct (safe_tmp_name final) as [e|tmp]; [by exists e, w|].
  unfold of_sum at 1. rewrite bind_ret_l, Hj.
  destruct (mkdir_p d w) as [[[]|e] wa] eqn:Hm.
  - assert (wa !! src = Some (File orig)) as Ha.
    { pose proof (mkdir_p_frame _ _ _ Hm src) as Hf. unfold file_at in Hf.
      rewrite Hsrc in Hf. by destruct (wa !! src) as [[?|]|]; simplify_eq. }
    exists SameFileError, wa. split; [|exact (mkdir_p_frame _ _ _ Hm)].
    assert ((mkdir_p d >> copy2 src src) w = (Raise SameFileError, wa)) as Hc.
    { rewrite (bind_run _ _ _ _ _ Hm). unfold copy2. run_monad. rewrite Ha.
      by rewrite bool_decide_eq_true_2. }
    erewrite bind_run_raise; [done|]. erewrite bind_run_raise; [done|exact Hc].
  - exists e, wa. split.
    + erewrite bind_run_raise; [done|]. erewrite bind_run_raise; [done|].
      by apply bind_run_raise.
    + intros p. apply (touches_mkdir_p (λ _, False) d w (Raise e) wa Hm p). tauto.
Qed.

(** ** More about the derived names *)

Lemma app_inj_r a b c : a +:+ c = b +:+ c → a = b.
Proof.
  revert b. induction a as [|x a IH]; intros [|y b] H; try done.
  - apply (f_equal Str.len) in H. rewrite app_nil_l, app_cons, len_cons, len_app in H.
    pose proof (len_nonneg b). lia.
  - apply (f_equal Str.len) in H. rewrite app_nil_l, app_cons, len_cons, len_app in H.
    pose proof (len_nonneg a). lia.
  - rewrite !app_cons in H. injection H as -> H. f_equal. by apply IH.
Qed.

(** X5. Two candidates given the same target extension get the same final
    marked path exactly when they lie in the same directory and have the
    same stem: the extension of the candidate plays no part, so [a.jpg] and
    [a.png] of one folder share their final path. *)
Theorem final_paths_collide_iff p q e f g :
  mark_name p e = inr f → mark_name q e = inr g →
  (f = g ↔ parent p = parent q ∧ stem p = stem q).
Proof.
  intros ->%mark_name_inr ->%mark_name_inr. split.
  - intros [= Hp Hn]. split; [done|].
    rewrite <- (app_assoc (stem p)), <- (app_assoc (stem q)) in Hn.
    apply app_inj_r in Hn. by apply app_inj_r in Hn.
  - by intros [-> ->].
Qed.

Lemma marked_outputs p r final tmp :
  r ≠ "" → Str.has_char "." r = false →
  mark_name p (String "." r) = inr final →
  safe_tmp_name final = inr tmp →
  stem final = stem p +:+ "[D]" ∧ suffix final = String "." r ∧
  stem tmp = stem p +:+ "[D].tmp" ∧ suffix tmp = String "." r.
Proof.
  intros Hr Hd Hf%mark_name_inr Ht%safe_tmp_name_inr.
  destruct (split_app_ext (stem p +:+ "[D]") r) as [Hs Hx]; [by apply app_ne|done..|].
  destruct (split_app_ext (stem p +:+ "[D].tmp") r) as [Hs' Hx']; [by apply app_ne|done..|].
  assert (name final = (stem p +:+ "[D]") +:+ String "." r) as Hnf.
  { subst final. cbn [name]. by rewrite app_assoc. }
  assert (stem final = stem p +:+ "[D]") as Hsf by (unfold stem at 1; by rewrite Hnf).
  assert (suffix final = String "." r) as Hxf by (unfold suffix; by rewrite Hnf).
  assert (name tmp = (stem p +:+ "[D].tmp") +:+ String "." r) as Hnt.
  { subst tmp. cbn [name]. rewrite Hsf, Hxf. by rewrite !app_assoc. }
  split_and!; [done|done| |].
  - unfold stem at 1. by rewrite Hnt.
  - unfold suffix. by rewrite Hnt.
Qed.

(** X6. The files that a bake creates are themselves image files by their
    extension, so a later scan finds them; and both the final marked path
    and the temp path carry the tag, so with [skip_if_marked] set
    [bake_one] skips each of them without touching the disk. *)
Theorem outputs_are_marked p e final tmp :
  in_IMG_EXTS e = true →
  mark_name p e = inr final →
  safe_tmp_name final = inr tmp →
  in_IMG_EXTS (Str.lower (suffix final)) = true ∧
  in_IMG_EXTS (Str.lower (suffix tmp)) = true ∧
  is_marked_d final = true ∧ is_marked_d tmp = true ∧
  (∀ output_fmt quality del backup_dir,
     bake_one final output_fmt quality del backup_dir true
     = ret (false, skip_message final, 0, 0)) ∧
  (∀ output_fmt quality del backup_dir,
     bake_one tmp output_fmt quality del backup_dir true
     = ret (false, skip_message tmp, 0, 0)).
Proof.
  intros He Hf Ht.
  assert (Str.lower e = e) as Hl.
  { apply bool_decide_eq_true in He. unfold IMG_EXTS in He. rewrite !elem_of_cons in He.
    destruct He as [He|[He|[He|[He|He]]]]; [by subst e..|by apply elem_of_nil in He]. }
  destruct (image_ext_split e He) as (r & -> & Hr & Hd & _).
  destruct (marked_outputs p r final tmp Hr Hd Hf Ht) as (Hsf & Hxf & Hst & Hxt).
  assert (is_marked_d final = true) as Hmf.
  { apply is_marked_d_iff. exists (stem p), "". by rewrite app_nil_r. }
  assert (is_marked_d tmp = true) as Hmt.
  { apply is_marked_d_iff. exists (stem p), ".tmp". by rewrite Hst. }
  rewrite Hxf, Hxt, Hl. split_and!; try done.
  - intros. by apply bake_one_skip.
  - intros. by apply bake_one_skip.
Qed.

Lemma bind_ext {A B} (m : M A) (k1 k2 : A → M B) w :
  (∀ a w1, k1 a w1 = k2 a w1) → bind m k1 w = bind m k2 w.
Proof. intros H. unfold bind. destruct (m w) as [[a|e] w1]; [apply H|done]. Qed.

Lemma bind_cong_l {A B} (m1 m2 : M A) (k : A → M B) w :
  m1 w = m2 w → bind m1 k w = bind m2 k w.
Proof. unfold bind. by intros ->. Qed.

Lemma save_image_to_tmp_png im tmp q1 q2 :
  Str.lower (suffix tmp) = ".png" →
  save_image_to_tmp im tmp q1 = save_image_to_tmp im tmp q2.
Proof. intros H. unfold save_image_to_tmp. by rewrite H. Qed.

(** X7. When the target extension is [.png] (a PNG candidate in keep mode,
    or the format [png]), the quality setting has no effect: [bake_one]
    gives the same result and the same disk for any two qualities. *)
Theorem png_ignores_quality src output_fmt q1 q2 del backup_dir skip w :
  target_ext src output_fmt = ".png" →
  bake_one src output_fmt q1 del backup_dir skip w
  = bake_one src output_fmt q2 del backup_dir skip w.
Proof.
  intros He. unfold bake_one. destruct (skip && is_marked_d src); [done|].
  apply bind_cong_l. unfold bake_encode. rewrite He.
  destruct (mark_name src ".png") as [e|final] eqn:Hf; [done|].
  unfold of_sum at 1 3. rewrite !bind_ret_l.
  destruct (safe_tmp_name final) as [e|tmp] eqn:Ht; [done|].
  unfold of_sum at 1 2. rewrite !bind_ret_l.
  destruct (marked_outputs src "png" final tmp) as (_ & _ & _ & Hx); [done..|].
  apply bind_ext. intros _ wa. apply bind_ext. intros s wb. apply bind_cong_l.
  apply bind_ext. intros im wc. rewrite (save_image_to_tmp_png im tmp q1 q2); [done|].
  by rewrite Hx.
Qed.

(** ** Measuring a folder *)

Lemma folder_size_loop l : ∀ z w,
  for_each l
    (λ p total,
       f <- is_file p ;;
       if f then
         try_except (sz <- stat_size p ;; ret (total + sz))
           (λ e, match e with FileNotFoundError _ => true | _ => false end)
           (λ _, ret total)
       else ret total) z w
  = (Ret (z + sum_sizes w l), w).
Proof.
  induction l as [|p l IH]; intros z w; simpl.
  - unfold ret. by rewrite Z.add_0_r.
  - assert ((f <- is_file p ;;
             if f then
               try_except (sz <- stat_size p ;; ret (z + sz))
                 (λ e, match e with FileNotFoundError _ => true | _ => false end)
                 (λ _, ret z)
             else ret z) w = (Ret (z + size_at w p), w)) as Hb.
    { unfold size_at, file_at. run_monad.
      destruct (w !! p) as [[d|]|] eqn:E; simpl; rewrite ?E; simpl;
        by rewrite ?Z.add_0_r. }
    rewrite (bind_run _ _ _ _ _ Hb), IH. do 2 f_equal. lia.
Qed.

Lemma folder_size_bytes_eq folder w :
  folder_size_bytes folder w
  = (Ret (sum_sizes w (filter (λ p, is_under folder p = true) (map_to_list w).*1)), w).
Proof.
  unfold folder_size_bytes, rglob. erewrite bind_run by reflexivity.
  by rewrite folder_size_loop.
Qed.

Lemma sum_sizes_nonneg w l : 0 ≤ sum_sizes w l.
Proof.
  induction l as [|p l IH]; simpl; [done|].
  assert (0 ≤ size_at w p); [|lia].
  unfold size_at, size_of. destruct (file_at w p); simpl; lia.
Qed.

Lemma sum_sizes_perm w l k : l ≡ₚ k → sum_sizes w l = sum_sizes w k.
Proof. induction 1; simpl; lia. Qed.

Lemma sum_sizes_insert_notin w p n l :
  p ∉ l → sum_sizes (<[p := n]> w) l = sum_sizes w l.
Proof.
  induction l as [|q l IH]; [done|]. intros [Hq Hl]%not_elem_of_cons. simpl.
  rewrite IH by done. f_equal. unfold size_at. by rewrite file_at_insert_ne.
Qed.

(** X4. [folder_size_bytes] never fails and changes nothing; it measures
    every file below the folder, image or not: putting a new file anywhere
    below the folder raises the measure by the length of that file, and
    putting one elsewhere leaves the measure as it is. *)
Theorem folder_size_counts_every_file folder w p d :
  w !! p = None →
  ∃ z, folder_size_bytes folder w = (Ret z, w) ∧ 0 ≤ z ∧
       folder_size_bytes folder (<[p := File d]> w)
       = (Ret (if is_under folder p then z + size_of d else z), <[p := File d]> w).
Proof.
  intros Hp. eexists. split_and!; [apply folder_size_bytes_eq|apply sum_sizes_nonneg|].
  rewrite folder_size_bytes_eq. do 2 f_equal.
  assert (p ∉ (map_to_list w).*1) as Hnot.
  { rewrite elem_of_keys, Hp. by intros [? [=]]. }
  assert ((map_to_list (<[p := File d]> w)).*1 ≡ₚ p :: (map_to_list w).*1) as Hperm.
  { by rewrite map_to_list_insert. }
  rewrite (sum_sizes_perm _ _ _ (filter_Permutation _ _ _ Hperm)), filter_cons.
  destruct (is_under folder p) eqn:Hu.
  - rewrite decide_True by done. simpl.
    rewrite sum_sizes_insert_notin by (by intros [_ ?]%list_elem_of_filter).
    unfold size_at, file_at. rewrite lookup_insert_eq. simpl. lia.
  - rewrite decide_False by done.
    apply sum_sizes_insert_notin. by intros [_ ?]%list_elem_of_filter.
Qed.

(** ** What the summaries report *)

Lemma bake_loop_count output_fmt quality del backup_dir skip files :
  ∀ t w t' w',
    for_each files
      (λ src (t : tallies),
         let '(baked, kept, errors) := t in
         try_except
           (o <- bake_one src output_fmt quality del backup_dir skip ;;
            let '(won, _, _, _) := o in
            ret (if won then (baked + 1, kept, errors)
                 else (baked, kept + 1, errors)))
           is_Exception
           (λ _, ret (baked, kept, errors + 1)))
      t w = (Ret t', w') →
    t'.1.1 + t'.1.2 + t'.2 = t.1.1 + t.1.2 + t.2 + Z.of_nat (length files) ∧
    t.1.1 ≤ t'.1.1 ∧ t.1.2 ≤ t'.1.2 ∧ t.2 ≤ t'.2.
Proof.
  induction files as [|src files IH]; intros t w t' w'; simpl.
  - intros [= <- _]. lia.
  - intros (t1 & w1 & Hb & Hl)%bind_inv. apply IH in Hl.
    assert (t1.1.1 + t1.1.2 + t1.2 = t.1.1 + t.1.2 + t.2 + 1 ∧
            t.1.1 ≤ t1.1.1 ∧ t.1.2 ≤ t1.1.2 ∧ t.2 ≤ t1.2) as Hstep; [|lia].
    destruct t as [[baked kept] errors]. revert Hb. unfold try_except, bind, ret.
    destruct (bake_one src output_fmt quality del backup_dir skip w)
      as [[[[[won msg] a] b]|e] w2].
    + destruct won; intros [= <- _]; simpl; lia.
    + destruct (is_Exception e); intros [= <- _]; simpl; lia.
Qed.

(** X15. The single-folder driver on a path that is not a directory raises
    [FileNotFoundError] at once: nothing is scanned and the disk is
    unchanged. *)
Theorem run_folder_mode_missing_folder input_dir output_fmt quality del backup_dir
    skip recursive w :
  w !! input_dir ≠ Some Dir →
  run_folder_mode input_dir output_fmt quality del backup_dir skip recursive w
  = (Raise (FileNotFoundError ("Input folder not found: " +:+ path_str input_dir)), w).
Proof.
  intros Hd. unfold run_folder_mode.
  assert (is_dir input_dir w = (Ret false, w)) as Hi.
  { run_monad. by destruct (w !! input_dir) as [[?|]|]. }
  by rewrite (bind_run _ _ _ _ _ Hi).
Qed.

(** X16. The single-folder driver on a directory always returns a summary,
    whatever happens to the single files: its total is the number of
    candidates that the scan (recursive or flat) found, every candidate is
    counted once as a win, as kept or as an error, and the two sizes are the
    measures of the folder before the first bake and after the last. *)
Theorem run_folder_mode_summary input_dir output_fmt quality del backup_dir
    skip recursive w :
  w !! input_dir = Some Dir →
  ∃ summary w' files,
    run_folder_mode input_dir output_fmt quality del backup_dir skip recursive w
      = (Ret summary, w') ∧
    (if recursive then iter_images_recursive input_dir
     else iter_images_flat input_dir) w = (Ret files, w) ∧
    total_images summary = Z.of_nat (length files) ∧
    total_images summary
      = baked_wins summary + kept_original summary + error_count summary ∧
    0 ≤ baked_wins summary ∧ 0 ≤ kept_original summary ∧ 0 ≤ error_count summary ∧
    folder_size_bytes input_dir w = (Ret (size_before summary), w) ∧
    folder_size_bytes input_dir w' = (Ret (size_after summary), w').
Proof.
  intros Hd. unfold run_folder_mode.
  assert (is_dir input_dir w = (Ret true, w)) as Hi by (run_monad; by rewrite Hd).
  rewrite (bind_run _ _ _ _ _ Hi). simpl.
  rewrite (bind_run _ _ _ _ _ (folder_size_bytes_eq input_dir w)).
  assert (∃ files, (if recursive then iter_images_recursive input_dir
                    else iter_images_flat input_dir) w = (Ret files, w)) as [files Hf].
  { destruct recursive; eexists;
      [apply iter_images_recursive_eq|by apply iter_images_flat_eq]. }
  rewrite (bind_run _ _ _ _ _ Hf).
  destruct (bake_loop_total output_fmt quality del backup_dir skip files (0, 0, 0) w)
    as ([[baked kept] errors] & w' & Hl).
  rewrite (bind_run _ _ _ _ _ Hl).
  rewrite (bind_run _ _ _ _ _ (folder_size_bytes_eq input_dir w')).
  apply bake_loop_count in Hl. simpl in Hl.
  eexists _, w', files. split_and!; try done; simpl; try lia.
  - apply folder_size_bytes_eq.
  - apply folder_size_bytes_eq.
Qed.

(** X17. Whenever the multi-root driver returns a summary, every candidate
    of its list is counted once: the total is the sum of the wins, the kept
    and the errors, none of them negative. *)
Theorem run_all_mode_tallies output_fmt quality del backup_dir skip confirm w
    summary w' :
  run_all_mode output_fmt quality del backup_dir skip confirm w = (Ret summary, w') →
  total_images summary
    = baked_wins summary + kept_original summary + error_count summary ∧
  0 ≤ baked_wins summary ∧ 0 ≤ kept_original summary ∧ 0 ≤ error_count summary.
Proof.
  unfold run_all_mode.
  destruct (del && negb (String.eqb (Str.strip confirm) required)); [done|].
  intros (roots & w0 & _ & H)%bind_inv.
  case_bool_decide; [done|].
  apply bind_inv in H as (before & w1 & _ & H).
  apply bind_inv in H as (files & w2 & _ & H).
  apply bind_inv in H as ([[baked kept] errors] & w3 & Hl & H).
  apply bind_inv in H as (after & w4 & _ & H).
  unfold ret in H. simplify_eq. simpl.
  apply bake_loop_count in Hl. simpl in Hl. lia.
Qed.

(** ** Running a bake again *)

Lemma save_image_to_tmp_again im tmp quality w w1 dt w' :
  save_image_to_tmp im tmp quality w = (Ret tt, w1) →
  w1 !! tmp = Some (File dt) →
  w' !! tmp ≠ Some Dir →
  save_image_to_tmp im tmp quality w' = (Ret tt, <[tmp := File dt]> w').
Proof.
  intros H Hdt Hnd. unfold save_image_to_tmp in *.
  apply bind_inv in H as ([im' kw] & wa & Hr & H).
  match type of Hr with
  | ?m w = _ => assert (∀ w0, m w0 = (Ret (im', kw), w0)) as Hr'
  end.
  { intros w0. revert Hr. unfold bind, of_codec, ret, raise.
    repeat case_match; intros; simplify_eq; done. }
  apply bind_inv in H as (e & wa' & [Heq He]%path_exists_inv & H). subst wa'.
  apply bind_inv in H as ([] & wb & Hu & Hs).
  assert (wb !! tmp = None) as Hnone.
  { destruct e.
    - apply unlink_inv in Hu as ->. apply lookup_delete_eq.
    - unfold ret in Hu. injection Hu as Hw. subst wb.
      destruct (wa !! tmp) eqn:E; [|done].
      assert (false = true) as [=]. apply He. by eexists. }
  assert (pil_save im' tmp kw = SaveReturned (Some dt)) as Hp.
  { revert Hs. simpl. unfold image_save. run_monad.
    destruct (pil_save im' tmp kw) as [[dout|]|[dout|]]; intros [= <-].
    - rewrite lookup_insert_eq in Hdt. by simplify_eq.
    - by rewrite Hnone in Hdt. }
  rewrite (bind_run _ _ _ _ _ (Hr' w')).
  erewrite (bind_run _ _ w') by reflexivity.
  assert ((if match w' !! tmp with Some _ => true | None => false end
           then unlink tmp false else ret tt) w' = (Ret tt, delete tmp w')) as Hu'.
  { run_monad. destruct (w' !! tmp) as [[?|]|] eqn:E; rewrite ?E; [done|done|].
    by rewrite delete_id. }
  rewrite (bind_run _ _ _ _ _ Hu'). simpl. unfold image_save. run_monad.
  by rewrite Hp, insert_delete_eq.
Qed.

Lemma settle_win_again (we : World) src final tmp d dt :
  we !! src = Some (File d) → final ≠ tmp → src ≠ final → src ≠ tmp →
  let w1 := <[final := File dt]> (delete tmp (delete final we)) in
  w1 !! src = Some (File d) ∧ w1 !! tmp = None ∧ w1 !! final = Some (File dt) ∧
  <[final := File dt]> (delete tmp (delete final (<[tmp := File dt]> w1))) = w1.
Proof.
  intros Hs Hft Hsf Hst w1. subst w1. split_and!.
  - by rewrite lookup_insert_ne, !lookup_delete_ne.
  - rewrite lookup_insert_ne by done. apply lookup_delete_eq.
  - apply lookup_insert_eq.
  - apply map_eq. intros p.
    destruct (decide (p = final)) as [->|Hpf]; [by rewrite !lookup_insert_eq|].
    rewrite !(lookup_insert_ne _ final) by done.
    destruct (decide (p = tmp)) as [->|Hpt]; [by rewrite !lookup_delete_eq|].
    rewrite !(lookup_delete_ne _ tmp) by done.
    rewrite (lookup_delete_ne _ final) by done.
    rewrite (lookup_insert_ne _ tmp) by done.
    by rewrite lookup_insert_ne, lookup_delete_ne.
Qed.

(** X18. Running a bake again repeats it: without a backup directory, if
    [bake_one] returned an outcome and did not delete the original (deletion
    is off, or the outcome is not a win), then [bake_one] with the same
    arguments on the resulting disk returns the same outcome and leaves that
    disk as it is. *)
Theorem rerun_repeats_outcome src output_fmt quality del skip w won msg a b w1 :
  bake_one src output_fmt quality del None skip w = (Ret (won, msg, a, b), w1) →
  del && won = false →
  bake_one src output_fmt quality del None skip w1 = (Ret (won, msg, a, b), w1).
Proof.
  intros H Hdw. unfold bake_one in *.
  destruct (skip && is_marked_d src); [unfold ret in *; by simplify_eq|].
  apply bind_inv in H as ([[[final tmp] s] t] & we & He & Hs).
  destruct (bake_encode_spec _ _ _ _ _ _ _ _ _ _ He)
    as (Hf & Ht & d & dt & Hd & -> & Hs1 & Ht1 & -> & Hfr & _).
  destruct (bake_paths _ _ _ _ Hf Ht) as (_ & _ & Hfs & Hts & Htf).
  assert (final ≠ tmp) as Hft by (by intros ->).
  assert (src ≠ final) as Hsf by (by intros ->).
  assert (src ≠ tmp) as Hst by (by intros ->).
  (* the pieces of the first run *)
  unfold bake_encode in He.
  apply bind_inv in He as (? & ? & [? ->]%of_sum_inv & He).
  apply bind_inv in He as (? & ? & [? ->]%of_sum_inv & He). simplify_eq.
  apply bind_inv in He as ([] & ? & [= <-] & He).
  apply bind_inv in He as (? & ? & [-> _]%stat_size_inv & He).
  apply bind_inv in He as ([] & wd & (im & ? & Hopen & Hsv)%bind_inv & He).
  pose proof (image_open_inv _ _ _ _ Hopen) as ->.
  apply bind_inv in He as (e & ? & [-> _]%path_exists_inv & He).
  destruct e; simpl in He; [|done].
  apply bind_inv in He as (? & ? & [-> _]%stat_size_inv & He).
  unfold ret in He. simplify_eq.
  (* the disk after the first run *)
  assert (w1 !! src = Some (File d) ∧ w1 !! tmp = None ∧
          bake_settle src final tmp output_fmt del (size_of d) (size_of dt)
            (<[tmp := File dt]> w1) = (Ret (won, msg, a, b), w1)) as (Hsrc & Htmp & Hsettle).
  { destruct (wins output_fmt (size_of dt) (size_of d)) eqn:Hw.
    - assert (we !! final ≠ Some Dir) as Hnd.
      { intros Hdir. revert Hs. unfold bake_settle. rewrite Hw. run_monad.
        rewrite Hdir. cbv beta iota. by rewrite Hdir. }
      assert (we !! src ≠ Some Dir) as Hsd by (by rewrite Hs1).
      rewrite (bake_settle_win _ _ _ _ _ _ _ _ dt Hw Ht1 Hnd Hsd Hft Hsf Hst) in Hs.
      simplify_eq. rewrite andb_true_r in Hdw. subst del. cbn [id].
      destruct (settle_win_again we src final tmp d dt) as (H1 & H2 & H3 & H4); try done.
      split_and!; [done|done|].
      rewrite (bake_settle_win _ _ _ _ _ _ _ _ dt Hw); try done.
      + cbn [id]. by rewrite H4.
      + apply lookup_insert_eq.
      + rewrite lookup_insert_ne by done. by rewrite H3.
      + rewrite lookup_insert_ne by done. by rewrite H1.
    - rewrite (bake_settle_keep _ _ _ _ _ _ _ _ dt Hw Ht1) in Hs. simplify_eq.
      split_and!.
      + by rewrite lookup_delete_ne.
      + apply lookup_delete_eq.
      + rewrite (bake_settle_keep _ _ _ _ _ _ _ _ dt Hw (lookup_insert_eq _ _ _)).
        by rewrite delete_insert_eq, delete_delete_eq. }
  (* the second run *)
  assert (bake_encode src output_fmt quality None w1
          = (Ret (final, tmp, size_of d, size_of dt), <[tmp := File dt]> w1)) as He2.
  { unfold bake_encode. rewrite Hf. unfold of_sum at 1. rewrite bind_ret_l.
    rewrite Ht. unfold of_sum at 1. rewrite bind_ret_l. rewrite bind_ret_l.
    assert (stat_size src w1 = (Ret (size_of d), w1)) as Hst1
      by (run_monad; by rewrite Hsrc).
    rewrite (bind_run _ _ _ _ _ Hst1).
    assert (image_open src w1 = (Ret im, w1)) as Hop1.
    { assert (w !! src = Some (File d)) as Hw0.
      { unfold file_at in Hd. destruct (w !! src) as [[?|]|]; by simplify_eq. }
      revert Hopen. unfold image_open. run_monad. rewrite Hw0, Hsrc.
      cbv beta iota. destruct (pil_open d); by intros [= <-]. }
    assert (save_image_to_tmp im tmp quality w1 = (Ret tt, <[tmp := File dt]> w1)) as Hsv1.
    { apply (save_image_to_tmp_again _ _ _ _ _ _ _ Hsv Ht1). by rewrite Htmp. }
    erewrite bind_run by (erewrite bind_run by exact Hop1; exact Hsv1).
    run_monad. rewrite lookup_insert_eq. simpl. by rewrite lookup_insert_eq. }
  by rewrite (bind_run _ _ _ _ _ He2).
Qed.

End Pics.

(** ** The program on the small codec *)

Local Abbreviation demo_bake_encode :=
  (bake_encode Demo.Image Demo.mode Demo.decode Demo.rgb Demo.rgb Demo.encode).
Local Abbreviation demo_bake_one :=
  (bake_one Demo.Image Demo.mode Demo.decode Demo.rgb Demo.rgb Demo.encode Demo.fmt).
Local Abbreviation demo_run_folder_mode :=
  (run_folder_mode Demo.Image Demo.mode Demo.decode Demo.rgb Demo.rgb Demo.encode Demo.fmt).
Local Abbreviation demo_run_all_mode :=
  (run_all_mode Demo.Image Demo.mode Demo.decode Demo.rgb Demo.rgb Demo.encode Demo.fmt
     Demo.home).

(** The example of the specification: sizes 100, 200 and 50 that re-encode
    to 90, 250 and 50 in keep mode give a win, a kept original and, for the
    tie, a kept original. *)
Example three_pictures :
  (demo_bake_one (Demo.pic "a.jpg") "keep" 85 false None true Demo.three).1
    = Ret (true, "✅ a.jpg -> a[D].jpg | ? -> ?", 100, 90) ∧
  (demo_bake_one (Demo.pic "b.jpg") "keep" 85 false None true Demo.three).1
    = Ret (false, "↩️ kept original b.jpg (no win)", 200, 200) ∧
  (demo_bake_one (Demo.pic "c.jpg") "keep" 85 false None true Demo.three).1
    = Ret (false, "↩️ kept original c.jpg (no win)", 50, 50).
Proof. split_and!; vm_compute; reflexivity. Qed.

Example three_pictures_batch :
  (demo_run_folder_mode Demo.dcim "keep" 85 false None true false Demo.three).1
    = Ret (mkSummary 3 1 2 0 350 440).
Proof. vm_compute. reflexivity. Qed.

(** *** The claims at concrete inputs *)

Lemma bake_one_win_decision_witness :
  ∃ msg a b w2,
    demo_bake_one (Demo.pic "a.jpg") "keep" 85 false None true Demo.three
    = (Ret (wins "keep" 90 100, msg, a, b), w2).
Proof.
  destruct (bake_one_win_decision Demo.Image Demo.mode Demo.decode Demo.rgb Demo.rgb
              Demo.encode Demo.fmt (Demo.pic "a.jpg") "keep" 85 false None true Demo.three
              (Demo.pic "a[D].jpg") (Demo.pic "a[D].tmp.jpg") 100 90
              (demo_bake_encode (Demo.pic "a.jpg") "keep" 85 None Demo.three).2)
    as (d & dt & msg & a & b & w2 & _ & _ & _ & _ & H & _).
  - reflexivity.
  - apply run_eq; [vm_compute; reflexivity|reflexivity].
  - vm_compute. discriminate.
  - exists msg, a, b, w2. exact H.
Defined.

Lemma bake_one_won_witness :
  ∃ w2,
    demo_bake_one (Demo.pic "a.jpg") "keep" 85 true None true Demo.three
    = (Ret (true, won_message Demo.fmt (Demo.pic "a.jpg") (Demo.pic "a[D].jpg") 100 90,
            100, 90), w2) ∧
    w2 !! Demo.pic "a[D].jpg" = Some (File (replicate 90 Byte.x00)) ∧
    w2 !! Demo.pic "a[D].tmp.jpg" = None ∧
    w2 !! Demo.pic "a.jpg" = None.
Proof.
  destruct (bake_one_won Demo.Image Demo.mode Demo.decode Demo.rgb Demo.rgb
              Demo.encode Demo.fmt (Demo.pic "a.jpg") "keep" 85 true None true Demo.three
              (Demo.pic "a[D].jpg") (Demo.pic "a[D].tmp.jpg") 100 90
              (demo_bake_encode (Demo.pic "a.jpg") "keep" 85 None Demo.three).2)
    as (d & dt & w2 & _ & _ & Ht & _ & H & Hf & Htmp & Hsrc & _).
  - reflexivity.
  - apply run_eq; [vm_compute; reflexivity|reflexivity].
  - reflexivity.
  - vm_compute. discriminate.
  - exists w2. split_and!; [exact H| |exact Htmp|by apply Hsrc].
    rewrite Hf. rewrite <- Ht. vm_compute. reflexivity.
Defined.

Lemma bake_one_kept_original_witness :
  ∃ w2,
    demo_bake_one (Demo.pic "c.jpg") "keep" 85 true None true Demo.three
    = (Ret (false, kept_message (Demo.pic "c.jpg"), 50, 50), w2) ∧
    w2 !! Demo.pic "c[D].tmp.jpg" = None ∧
    file_at w2 (Demo.pic "c.jpg") = Some (replicate 50 Byte.x02) ∧
    file_at w2 (Demo.pic "c[D].jpg") = None.
Proof.
  destruct (bake_one_kept_original Demo.Image Demo.mode Demo.decode Demo.rgb Demo.rgb
              Demo.encode Demo.fmt (Demo.pic "c.jpg") 85 true None true Demo.three
              (Demo.pic "c[D].jpg") (Demo.pic "c[D].tmp.jpg") 50 50
              (demo_bake_encode (Demo.pic "c.jpg") "keep" 85 None Demo.three).2)
    as (d & w2 & Hd & _ & H & Htmp & Hsrc & Hfin & _).
  - reflexivity.
  - apply run_eq; [vm_compute; reflexivity|reflexivity].
  - lia.
  - exists w2. split_and!; [exact H|exact Htmp| |].
    + rewrite Hsrc, <- Hd. vm_compute. reflexivity.
    + rewrite Hfin. vm_compute. reflexivity.
Defined.

Lemma run_all_mode_safety_lock_witness :
  demo_run_all_mode "keep" 85 true None true "" Demo.three
  = (Raise (SystemExit refusing_message), Demo.three) ∧
  (∃ summary w', demo_run_all_mode "keep" 85 true None true
                   " I UNDERSTAND THIS DELETES ORIGINALS " Demo.three
                 = (Ret summary, w')) ∧
  (∃ summary w', demo_run_all_mode "keep" 85 true None true
                   (Demo.utf8 [194; 160] +:+ required +:+ Demo.utf8 [227; 128; 128])
                   Demo.three
                 = (Ret summary, w')).
Proof.
  split_and!.
  - apply (run_all_mode_safety_lock Demo.Image Demo.mode Demo.decode Demo.rgb Demo.rgb
             Demo.encode Demo.fmt Demo.home "keep" 85 true None true "").
    + reflexivity.
    + vm_compute. discriminate.
  - apply (run_all_mode_safety_lock Demo.Image Demo.mode Demo.decode Demo.rgb Demo.rgb
             Demo.encode Demo.fmt Demo.home "keep" 85 true None true
             " I UNDERSTAND THIS DELETES ORIGINALS ")
      with (roots := [Demo.dcim]) (w1 := (default_all_roots Demo.home Demo.three).2).
    + right. vm_compute. reflexivity.
    + apply run_eq; [vm_compute; reflexivity|reflexivity].
    + discriminate.
  - apply (run_all_mode_safety_lock Demo.Image Demo.mode Demo.decode Demo.rgb Demo.rgb
             Demo.encode Demo.fmt Demo.home "keep" 85 true None true
             (Demo.utf8 [194; 160] +:+ required +:+ Demo.utf8 [227; 128; 128]))
      with (roots := [Demo.dcim]) (w1 := (default_all_roots Demo.home Demo.three).2).
    + right. vm_compute. reflexivity.
    + apply run_eq; [vm_compute; reflexivity|reflexivity].
    + discriminate.
Defined.

Lemma bake_one_skips_marked_witness :
  demo_bake_one (Demo.pic "a[D].jpg") "keep" 85 true None true Demo.rerun
  = (Ret (false, skip_message (Demo.pic "a[D].jpg"), 0, 0), Demo.rerun).
Proof.
  destruct (bake_one_skips_marked Demo.Image Demo.mode Demo.decode Demo.rgb Demo.rgb
              Demo.encode Demo.fmt (Demo.pic "a[D].jpg") "keep" 85 true None)
    as (_ & H & _).
  - vm_compute. reflexivity.
  - vm_compute. reflexivity.
  - exact (H Demo.rerun).
Defined.

Lemma target_ext_lowercased_witness :
  target_ext (Demo.pic "photo.JPG") "keep" = ".jpg" ∧
  suffix (Demo.pic "photo[D].jpg") = ".jpg".
Proof.
  destruct (target_ext_lowercased (Demo.pic "photo.JPG") "keep" (Demo.pic "photo[D].jpg"))
    as [H _].
  - vm_compute. reflexivity.
  - vm_compute. discriminate.
  - destruct (H eq_refl) as (H1 & H2 & _). split; [exact H1|exact H2].
Defined.

Lemma marked_and_temp_names_witness :
  ∃ final tmp,
    mark_name (Demo.pic "photo.jpg") ".jpg" = inr final ∧
    name final = "photo[D].jpg" ∧
    safe_tmp_name final = inr tmp ∧
    name tmp = "photo[D].tmp.jpg" ∧ suffix tmp = ".jpg".
Proof.
  destruct (marked_and_temp_names (Demo.pic "photo.jpg") ".jpg")
    as (final & tmp & H1 & _ & H2 & _ & _ & H3 & _ & _ & H4 & H5 & _).
  - vm_compute. discriminate.
  - vm_compute. reflexivity.
  - vm_compute. reflexivity.
  - exists final, tmp. split_and!; [exact H1|exact H2|exact H3|exact H4|exact H5].
Defined.

Lemma drivers_agree_up_to_marked_witness :
  ∃ all_summary folder_summary w',
    demo_run_all_mode "keep" 85 false None true "" Demo.rerun = (Ret all_summary, w') ∧
    demo_run_folder_mode Demo.dcim "keep" 85 false None true true Demo.rerun
    = (Ret folder_summary, w') ∧
    total_images folder_summary = 2 ∧
    total_images all_summary = 1 ∧
    kept_original folder_summary = kept_original all_summary + 1 ∧
    baked_wins folder_summary = baked_wins all_summary ∧
    error_count folder_summary = error_count all_summary.
Proof.
  destruct (drivers_agree_up_to_marked Demo.Image Demo.mode Demo.decode Demo.rgb Demo.rgb
              Demo.encode Demo.fmt Demo.home Demo.dcim "keep" 85 false None true ""
              Demo.rerun (default_all_roots Demo.home Demo.rerun).2
              [Demo.pic "a[D].jpg"; Demo.pic "b.jpg"]
              (iter_images_recursive Demo.dcim Demo.rerun).2)
    as (_ & _ & sa & sf & w' & Ha & Hf & Ht & Hu & _ & Hk & Hb & He & _).
  - reflexivity.
  - apply run_eq; [vm_compute; reflexivity|reflexivity].
  - vm_compute. reflexivity.
  - apply run_eq; [vm_compute; reflexivity|reflexivity].
  - exists sa, sf, w'.
    split_and!; [exact Ha|exact Hf|exact Ht|exact Hu|exact Hk|exact Hb|exact He].
Defined.


(** *** Where the code departs from the specification *)

(** C5, as stated, fails: a confirmation that is not the exact phrase (it
    carries surrounding blanks) opens the lock, and the batch runs and
    deletes the original it improved; and with the exact phrase the batch
    does not run when no default root exists. *)
Lemma run_all_mode_lock_counterexample :
  " I UNDERSTAND THIS DELETES ORIGINALS " ≠ required ∧
  (∃ w', demo_run_all_mode "keep" 85 true None true
           " I UNDERSTAND THIS DELETES ORIGINALS " Demo.three
         = (Ret (mkSummary 3 1 2 0 350 340), w') ∧
         w' !! Demo.pic "a.jpg" = None) ∧
  (demo_run_all_mode "keep" 85 true None true required ∅).1
  = Raise (SystemExit "No default image roots found. (Need Termux storage access?)").
Proof.
  split_and!.
  - discriminate.
  - eexists. split; [apply run_eq; [vm_compute; reflexivity|reflexivity]|].
    vm_compute. reflexivity.
  - vm_compute. reflexivity.
Qed.

(** C7, as stated, fails: in keep mode the final path of [photo.JPG] is
    [photo[D].jpg], whose extension is not the candidate's own. *)
Lemma keep_mode_extension_counterexample :
  suffix (Demo.pic "photo.JPG") = ".JPG" ∧
  target_ext (Demo.pic "photo.JPG") "keep" = ".jpg" ∧
  mark_name (Demo.pic "photo.JPG") (target_ext (Demo.pic "photo.JPG") "keep")
  = inr (Demo.pic "photo[D].jpg") ∧
  suffix (Demo.pic "photo[D].jpg") ≠ suffix (Demo.pic "photo.JPG").
Proof. split_and!; vm_compute; (reflexivity || discriminate). Qed.

(** C9, as stated, fails: on a disk whose single root holds a marked picture
    and a fresh one, with the same options and skip-marked set, both
    drivers find the same two candidates, but the single-folder driver
    counts the marked one as kept while the multi-root driver leaves it out
    of its list and of its totals. *)
Lemma drivers_disagree_on_marked :
  (default_all_roots Demo.home Demo.rerun).1 = Ret [Demo.dcim] ∧
  (iter_images_recursive Demo.dcim Demo.rerun).1
  = Ret [Demo.pic "a[D].jpg"; Demo.pic "b.jpg"] ∧
  (demo_run_folder_mode Demo.dcim "keep" 85 false None true true Demo.rerun).1
  = Ret (mkSummary 2 0 2 0 140 140) ∧
  (demo_run_all_mode "keep" 85 false None true "" Demo.rerun).1
  = Ret (mkSummary 1 0 1 0 140 140).
Proof. split_and!; vm_compute; reflexivity. Qed.

(** C2: a failed bake leaves the temp path occupied. When the source does
    not decode, a temp file left by an interrupted run stays where it was;
    when the encoder fails after it started to write, its partial output
    stays; and the folder has grown by it after the batch. *)
Lemma failed_bake_leaves_temp_file :
  (demo_bake_one (Demo.pic "d.png") "keep" 85 false None true Demo.broken).1
  = Raise CodecError ∧
  (demo_bake_one (Demo.pic "d.png") "keep" 85 false None true Demo.broken).2
    !! Demo.pic "d[D].tmp.png" = Some (File [Byte.x00]) ∧
  (demo_bake_one (Demo.pic "e.png") "keep" 85 false None true Demo.broken).1
  = Raise CodecError ∧
  (demo_bake_one (Demo.pic "e.png") "keep" 85 false None true Demo.broken).2
    !! Demo.pic "e[D].tmp.png" = Some (File [Byte.x03]) ∧
  (demo_run_folder_mode Demo.dcim "keep" 85 false None true false Demo.broken).1
  = Ret (mkSummary 3 0 1 2 6 7).
Proof. split_and!; vm_compute; reflexivity. Qed.

(** *** The further properties at concrete inputs *)


Lemma flat_scan_within_recursive_witness :
  [Demo.pic "a.jpg"] ⊆ [Tree.sub "shot.PNG"; Demo.pic "a.jpg"].
Proof.
  apply (flat_scan_within_recursive Demo.dcim Tree.disk
           [Demo.pic "a.jpg"] [Tree.sub "shot.PNG"; Demo.pic "a.jpg"]
           (iter_images_flat Demo.dcim Tree.disk).2
           (iter_images_recursive Demo.dcim Tree.disk).2).
  - apply run_eq; [vm_compute; reflexivity|reflexivity].
  - apply run_eq; [vm_compute; reflexivity|reflexivity].
Defined.

Lemma folder_size_counts_every_file_witness :
  ∃ z, folder_size_bytes Demo.dcim Tree.disk = (Ret z, Tree.disk) ∧ 0 ≤ z ∧
       folder_size_bytes Demo.dcim
         (<[Tree.sub "readme.md" := File [Byte.x00; Byte.x00; Byte.x00]]> Tree.disk)
       = (Ret (if is_under Demo.dcim (Tree.sub "readme.md")
               then z + size_of [Byte.x00; Byte.x00; Byte.x00] else z),
          <[Tree.sub "readme.md" := File [Byte.x00; Byte.x00; Byte.x00]]> Tree.disk).
Proof.
  apply (folder_size_counts_every_file Demo.dcim Tree.disk (Tree.sub "readme.md")).
  vm_compute. reflexivity.
Defined.

Lemma final_paths_collide_iff_witness :
  Demo.pic "a[D].webp" = Demo.pic "a[D].webp" ↔
  parent (Demo.pic "a.jpg") = parent (Demo.pic "a.png") ∧
  stem (Demo.pic "a.jpg") = stem (Demo.pic "a.png").
Proof.
  apply (final_paths_collide_iff (Demo.pic "a.jpg") (Demo.pic "a.png") ".webp").
  - vm_compute. reflexivity.
  - vm_compute. reflexivity.
Defined.

Lemma outputs_are_marked_witness :
  is_marked_d (Demo.pic "photo[D].jpg") = true ∧
  is_marked_d (Demo.pic "photo[D].tmp.jpg") = true ∧
  in_IMG_EXTS (Str.lower (suffix (Demo.pic "photo[D].tmp.jpg"))) = true.
Proof.
  destruct (outputs_are_marked Demo.Image Demo.mode Demo.decode Demo.rgb Demo.rgb
              Demo.encode Demo.fmt (Demo.pic "photo.jpg") ".jpg"
              (Demo.pic "photo[D].jpg") (Demo.pic "photo[D].tmp.jpg"))
    as (_ & H1 & H2 & H3 & _).
  - vm_compute. reflexivity.
  - vm_compute. reflexivity.
  - vm_compute. reflexivity.
  - split_and!; [exact H2|exact H3|exact H1].
Defined.

Lemma png_ignores_quality_witness :
  demo_bake_one (Tree.sub "shot.PNG") "keep" 10 false None true Tree.disk
  = demo_bake_one (Tree.sub "shot.PNG") "keep" 95 false None true Tree.disk.
Proof.
  apply (png_ignores_quality Demo.Image Demo.mode Demo.decode Demo.rgb Demo.rgb
           Demo.encode Demo.fmt (Tree.sub "shot.PNG") "keep" 10 95).
  vm_compute. reflexivity.
Defined.

Lemma keep_mode_never_reports_growth_witness :
  90 ≤ 100 ∧ (true = true ↔ 90 < 100).
Proof.
  apply (keep_mode_never_reports_growth Demo.Image Demo.mode Demo.decode Demo.rgb Demo.rgb
           Demo.encode Demo.fmt (Demo.pic "a.jpg") 85 false None true Demo.three
           true "✅ a.jpg -> a[D].jpg | ? -> ?" 100 90
           (demo_bake_one (Demo.pic "a.jpg") "keep" 85 false None true Demo.three).2).
  apply run_eq; [vm_compute; reflexivity|reflexivity].
Defined.

Lemma bake_one_failure_changes_nothing_witness :
  file_at (demo_bake_one (Demo.pic "e.png") "keep" 85 true None true Demo.broken).2
    (Demo.pic "e.png")
  = file_at Demo.broken (Demo.pic "e.png").
Proof.
  destruct (bake_one_failure_changes_nothing Demo.Image Demo.mode Demo.decode Demo.rgb
              Demo.rgb Demo.encode Demo.fmt (Demo.pic "e.png") "keep" 85 true None true
              Demo.broken CodecError
              (demo_bake_one (Demo.pic "e.png") "keep" 85 true None true Demo.broken).2)
    as (_ & H & _).
  - apply run_eq; [vm_compute; reflexivity|reflexivity].
  - exact H.
Defined.

Lemma safe_mode_keeps_original_witness :
  file_at (demo_bake_one (Demo.pic "a.jpg") "webp" 85 false None true Demo.three).2
    (Demo.pic "a.jpg")
  = file_at Demo.three (Demo.pic "a.jpg").
Proof.
  apply (safe_mode_keeps_original Demo.Image Demo.mode Demo.decode Demo.rgb Demo.rgb
           Demo.encode Demo.fmt (Demo.pic "a.jpg") "webp" 85 None true Demo.three
           (demo_bake_one (Demo.pic "a.jpg") "webp" 85 false None true Demo.three).1).
  apply run_eq; reflexivity.
Defined.

Lemma backup_holds_original_bytes_witness :
  ∃ dst orig,
    file_at Demo.three (Demo.pic "a.jpg") = Some orig ∧ dst ≠ Demo.pic "a.jpg" ∧
    (dst = join (join Demo.shared "backup") (name (Demo.pic "a.jpg")) ∨
     dst = join (join (join Demo.shared "backup") (name (Demo.pic "a.jpg")))
             (name (Demo.pic "a.jpg"))) ∧
    file_at (demo_bake_one (Demo.pic "a.jpg") "keep" 85 true
               (Some (join Demo.shared "backup")) true Demo.three).2 dst
    = Some orig.
Proof.
  apply (backup_holds_original_bytes Demo.Image Demo.mode Demo.decode Demo.rgb Demo.rgb
           Demo.encode Demo.fmt (Demo.pic "a.jpg") "keep" 85 true
           (join Demo.shared "backup") true Demo.three
           (true, "✅ a.jpg -> a[D].jpg | ? -> ?", 100, 90)).
  - reflexivity.
  - apply run_eq; [vm_compute; reflexivity|reflexivity].
Defined.


Lemma save_image_to_tmp_output_witness :
  ∃ im' kw out,
    Demo.encode im' (Demo.pic "a[D].tmp.jpg") kw = SaveReturned out ∧
    (save_image_to_tmp Demo.Image Demo.mode Demo.rgb Demo.rgb Demo.encode
       (replicate 100 Byte.x00) (Demo.pic "a[D].tmp.jpg") 85 Demo.three).2
      !! Demo.pic "a[D].tmp.jpg" = File <$> out.
Proof.
  destruct (save_image_to_tmp_output Demo.Image Demo.mode Demo.decode Demo.rgb Demo.rgb
              Demo.encode Demo.fmt (replicate 100 Byte.x00) (Demo.pic "a[D].tmp.jpg") 85
              Demo.three
              (save_image_to_tmp Demo.Image Demo.mode Demo.rgb Demo.rgb Demo.encode
                 (replicate 100 Byte.x00) (Demo.pic "a[D].tmp.jpg") 85 Demo.three).2)
    as (im' & kw & out & H1 & H2 & _).
  - apply run_eq; [vm_compute; reflexivity|reflexivity].
  - exists im', kw, out. split; [exact H1|exact H2].
Defined.

Lemma backup_into_own_folder_fails_witness :
  ∃ e w', demo_bake_one (Demo.pic "a.jpg") "keep" 85 false (Some Demo.dcim) true Demo.three
          = (Raise e, w') ∧
          ∀ p, file_at w' p = file_at Demo.three p.
Proof.
  apply (backup_into_own_folder_fails Demo.Image Demo.mode Demo.decode Demo.rgb Demo.rgb
           Demo.encode Demo.fmt (Demo.pic "a.jpg") "keep" 85 false Demo.dcim true
           Demo.three (replicate 100 Byte.x00)).
  - reflexivity.
  - vm_compute. reflexivity.
  - reflexivity.
Defined.

Lemma run_folder_mode_missing_folder_witness :
  demo_run_folder_mode (Demo.pic "a.jpg") "keep" 85 false None true false Demo.three
  = (Raise (FileNotFoundError
              ("Input folder not found: " +:+ path_str (Demo.pic "a.jpg"))), Demo.three).
Proof.
  apply (run_folder_mode_missing_folder Demo.Image Demo.mode Demo.decode Demo.rgb
           Demo.rgb Demo.encode Demo.fmt (Demo.pic "a.jpg")).
  vm_compute. discriminate.
Defined.

Lemma run_folder_mode_summary_witness :
  ∃ summary w',
    demo_run_folder_mode Demo.dcim "keep" 85 false None true false Tree.disk
    = (Ret summary, w') ∧
    total_images summary
    = baked_wins summary + kept_original summary + error_count summary.
Proof.
  destruct (run_folder_mode_summary Demo.Image Demo.mode Demo.decode Demo.rgb Demo.rgb
              Demo.encode Demo.fmt Demo.dcim "keep" 85 false None true false Tree.disk)
    as (summary & w' & files & H1 & _ & _ & H2 & _).
  - vm_compute. reflexivity.
  - exists summary, w'. split; [exact H1|exact H2].
Defined.

Lemma run_all_mode_tallies_witness :
  total_images (mkSummary 2 2 0 0 147 267)
  = baked_wins (mkSummary 2 2 0 0 147 267) + kept_original (mkSummary 2 2 0 0 147 267)
    + error_count (mkSummary 2 2 0 0 147 267).
Proof.
  apply (run_all_mode_tallies Demo.Image Demo.mode Demo.decode Demo.rgb Demo.rgb
           Demo.encode Demo.fmt Demo.home "keep" 85 false None true "" Tree.disk
           (mkSummary 2 2 0 0 147 267)
           (demo_run_all_mode "keep" 85 false None true "" Tree.disk).2).
  apply run_eq; [vm_compute; reflexivity|reflexivity].
Defined.

Lemma rerun_repeats_outcome_witness :
  demo_bake_one (Demo.pic "a.jpg") "keep" 85 false None true
    (demo_bake_one (Demo.pic "a.jpg") "keep" 85 false None true Demo.three).2
  = (Ret (true, "✅ a.jpg -> a[D].jpg | ? -> ?", 100, 90),
     (demo_bake_one (Demo.pic "a.jpg") "keep" 85 false None true Demo.three).2).
Proof.
  apply (rerun_repeats_outcome Demo.Image Demo.mode Demo.decode Demo.rgb Demo.rgb
           Demo.encode Demo.fmt (Demo.pic "a.jpg") "keep" 85 false true Demo.three).
  - apply run_eq; [vm_compute; reflexivity|reflexivity].
  - reflexivity.
Defined.
